(** * ngcore archive: a shallow embedding of [libsrc/core/archive.hpp]

  The development follows the header top-down: the byte-level binary
  encoder ([BinaryOutArchive], [BinaryInArchive]), the library-version
  header, the text reader, and the pointer protocol of the [Archive]
  base class. *)

From Stdlib Require Import ZArith Ascii String List Lia Bool.
From stdpp Require Import base option list gmap strings.

Local Open Scope Z_scope.

(** ** Native representations *)

Module Native.

(** A [char] of the stream or of the buffer. *)
Definition char_of_Z (z : Z) : ascii := ascii_of_N (Z.to_N (z mod 256)).
Definition Z_of_char (c : ascii) : Z := Z.of_N (N_of_ascii c).

(** The [n] bytes of the two's complement image of [z], least
    significant byte first. *)
Fixpoint le_bytes (n : nat) (z : Z) : list ascii :=
  match n with
  | O => []
  | S k => char_of_Z z :: le_bytes k (z / 256)
  end.

(** The unsigned value held in a little-endian byte image. *)
Fixpoint le_value (l : list ascii) : Z :=
  match l with
  | [] => 0
  | c :: r => Z_of_char c + 256 * le_value r
  end.

(** Conversion to a signed integer type of [w] bits. *)
Definition to_signed (w : Z) (z : Z) : Z :=
  let m := z mod 2 ^ w in
  if m <? 2 ^ (w - 1) then m else m - 2 ^ w.

(** Conversion to [size_t]. *)
Definition to_size_t (z : Z) : Z := z mod 2 ^ 64.

(** The primitive types with an [operator &] of their own. A [double]
    is kept as its 64-bit image. *)
Inductive prim :=
| PDouble (bits : Z)
| PInt (i : Z)
| PShort (i : Z)
| PLong (i : Z)
| PSizeT (i : Z)
| PUChar (i : Z)
| PBool (b : bool).

Definition sizeof (x : prim) : nat :=
  match x with
  | PDouble _ => 8
  | PInt _ => 4
  | PShort _ => 2
  | PLong _ => 8
  | PSizeT _ => 8
  | PUChar _ => 1
  | PBool _ => 1
  end%nat.

Definition repr (x : prim) : list ascii :=
  match x with
  | PDouble z | PInt z | PShort z | PLong z | PSizeT z | PUChar z =>
      le_bytes (sizeof x) z
  | PBool b => le_bytes 1 (if b then 1 else 0)
  end.

End Native.

(** ** BinaryOutArchive: the 1024-byte coalescing buffer *)

Module BinaryOut.
Import Native.

Definition BUFFERSIZE : Z := 1024.

(** [char buffer[BUFFERSIZE]], [size_t ptr] and the bytes that have
    reached [fout] so far. *)
Record t := mk { buffer : list ascii; ptr : Z; fout : list ascii }.

(** [fout->write(src, n)]. *)
Definition stream_write (out src : list ascii) (n : Z) : list ascii :=
  out ++ take (Z.to_nat n) src.

(** [*reinterpret_cast<T*>(&buffer[off]) = x]. *)
Definition store (buf : list ascii) (off : Z) (x : list ascii) : list ascii :=
  take (Z.to_nat off) buf ++ x ++ drop (Z.to_nat off + length x) buf.

(** State after the member initialisers: [buffer = {}], [ptr = 0]. *)
Definition init (out : list ascii) : t :=
  {| buffer := replicate (Z.to_nat BUFFERSIZE) zero; ptr := 0; fout := out |}.

(** [Write<T>(T x)], with [x] given by its byte image and
    [sizeof(T)] by the length of that image. *)
Definition Write (a : t) (x : list ascii) : t :=
  let n := Z.of_nat (length x) in
  if to_size_t (BUFFERSIZE - n) <? ptr a then
    {| buffer := store (buffer a) 0 x;
       ptr := n;
       fout := stream_write (fout a) (buffer a) (ptr a) |}
  else
    {| buffer := store (buffer a) (ptr a) x;
       ptr := to_size_t (ptr a + n);
       fout := fout a |}.

(** The offset at which [Write] stores its argument. *)
Definition Write_offset (a : t) (x : list ascii) : Z :=
  if to_size_t (BUFFERSIZE - Z.of_nat (length x)) <? ptr a then 0 else ptr a.

Definition FlushBuffer (a : t) : t :=
  if 0 <? ptr a then
    {| buffer := buffer a; ptr := 0;
       fout := stream_write (fout a) (buffer a) (ptr a) |}
  else a.

Definition write_prim (a : t) (x : prim) : t := Write a (repr x).

(** [operator & (std::string &)]. *)
Definition write_string (a : t) (str : string) : t :=
  let len := to_signed 32 (Z.of_nat (String.length str)) in
  let a1 := FlushBuffer (write_prim a (PInt len)) in
  if len =? 0 then a1
  else {| buffer := buffer a1; ptr := ptr a1;
          fout := stream_write (fout a1) (list_ascii_of_string str) len |}.

(** [operator & (char *&)]; [None] is the null pointer. *)
Definition write_cstr (a : t) (str : option string) : t :=
  let len := match str with
             | Some s => to_signed 64 (Z.of_nat (String.length s))
             | None => -1
             end in
  let a1 := FlushBuffer (write_prim a (PLong len)) in
  if 0 <? len then
    {| buffer := buffer a1; ptr := ptr a1;
       fout := stream_write (fout a1)
                 (list_ascii_of_string (default EmptyString str)) len |}
  else a1.

(** [~BinaryOutArchive]. *)
Definition destroy (a : t) : list ascii := fout (FlushBuffer a).

(** The calls a client can make on the archive. *)
Inductive op :=
| OpPrim (x : prim)
| OpString (s : string)
| OpCStr (s : option string)
| OpFlush.

Definition step (a : t) (o : op) : t :=
  match o with
  | OpPrim x => write_prim a x
  | OpString s => write_string a s
  | OpCStr s => write_cstr a s
  | OpFlush => FlushBuffer a
  end.

Definition run (ops : list op) (a : t) : t := fold_left step ops a.

(** The buffer offset stays inside the array. *)
Definition ptr_ok (a : t) : Prop := 0 <= ptr a <= BUFFERSIZE.

Definition wf (a : t) : Prop :=
  ptr_ok a /\ length (buffer a) = Z.to_nat BUFFERSIZE.

(** Bytes handed to the archive that have not reached [fout] yet,
    appended to those that have. *)
Definition pending (a : t) : list ascii :=
  fout a ++ take (Z.to_nat (ptr a)) (buffer a).

End BinaryOut.

(** The writer of the specification: no buffer, every byte goes to the
  stream at once. *)
Module Unbuffered.
Import Native.

Definition write_prim (out : list ascii) (x : prim) : list ascii := out ++ repr x.

Definition write_string (out : list ascii) (str : string) : list ascii :=
  let len := to_signed 32 (Z.of_nat (String.length str)) in
  write_prim out (PInt len) ++ take (Z.to_nat len) (list_ascii_of_string str).

Definition write_cstr (out : list ascii) (str : option string) : list ascii :=
  match str with
  | Some s =>
      let len := to_signed 64 (Z.of_nat (String.length s)) in
      write_prim out (PLong len) ++ take (Z.to_nat len) (list_ascii_of_string s)
  | None => write_prim out (PLong (-1))
  end.

Definition step (out : list ascii) (o : BinaryOut.op) : list ascii :=
  match o with
  | BinaryOut.OpPrim x => write_prim out x
  | BinaryOut.OpString s => write_string out s
  | BinaryOut.OpCStr s => write_cstr out s
  | BinaryOut.OpFlush => out
  end.

Definition run (ops : list BinaryOut.op) (out : list ascii) : list ascii :=
  fold_left step ops out.

(** The bytes one call contributes: the native image of a primitive,
    or the length and the payload of a string; a flush contributes
    none. *)
Definition bytes_of (o : BinaryOut.op) : list ascii := step [] o.

End Unbuffered.

(** ** The library-version header and BinaryInArchive *)

(** [std::map<K,V>::operator[]]: the value stored under [k]; a key that
    is absent is first inserted with a value-initialised [V]. *)
Definition map_index `{Countable K} {V : Type} (dflt : V) (m : gmap K V) (k : K)
  : V * gmap K V :=
  match m !! k with
  | Some v => (v, m)
  | None => (dflt, <[k := dflt]> m)
  end.

Module BinaryIn.
Import Native.

Section archive.
(** [version.hpp] is not part of the sources at hand: [VersionInfo], its
    default constructor, [to_string] and the constructor from a string
    are parameters. *)
Context {VersionInfo : Type}.
Variable default_VersionInfo : VersionInfo.
Variable to_string : VersionInfo -> string.
Variable of_string : string -> VersionInfo.

(** [std::map<std::string, VersionInfo> vinfo] and what is left of
    [fin]. *)
Record t := mk { vinfo : gmap string VersionInfo; fin : list ascii }.

(** [fin->read(dest, n)]: [None] when the stream holds fewer than [n]
    bytes, which leaves the destination indeterminate. *)
Definition stream_read (n : nat) (fin : list ascii) : option (list ascii * list ascii) :=
  if (length fin <? n)%nat then None else Some (take n fin, drop n fin).

(** [Read<int>] and [Read<size_t>]. *)
Definition Read_int (fin : list ascii) : option (Z * list ascii) :=
  '(bs, fin') ← stream_read 4 fin; Some (to_signed 32 (le_value bs), fin').

Definition Read_size_t (fin : list ascii) : option (Z * list ascii) :=
  '(bs, fin') ← stream_read 8 fin; Some (le_value bs, fin').

(** [operator & (std::string &)]; [str.resize] of a negative length does
    not return. *)
Definition read_string (fin : list ascii) : option (string * list ascii) :=
  '(len, fin1) ← Read_int fin;
  if len <? 0 then None
  else if len =? 0 then Some (EmptyString, fin1)
  else '(bs, fin2) ← stream_read (Z.to_nat len) fin1;
       Some (string_of_list_ascii bs, fin2).

(** [Archive::operator & (VersionInfo &)] on input. *)
Definition read_version (fin : list ascii) : option (VersionInfo * list ascii) :=
  '(s, fin') ← read_string fin; Some (of_string s, fin').

(** The loop of [Archive::operator & (std::map<T1,T2> &)] on input. *)
Fixpoint read_entries (n : nat) (m : gmap string VersionInfo) (fin : list ascii)
  : option (gmap string VersionInfo * list ascii) :=
  match n with
  | O => Some (m, fin)
  | S k =>
      '(key, fin1) ← read_string fin;
      '(val, fin2) ← read_version fin1;
      read_entries k (<[key := val]> m) fin2
  end.

Definition read_map (m : gmap string VersionInfo) (fin : list ascii)
  : option (gmap string VersionInfo * list ascii) :=
  '(size, fin1) ← Read_size_t fin;
  read_entries (Z.to_nat size) m fin1.

(** [BinaryInArchive(std::shared_ptr<std::istream>&&)]. *)
Definition create (fin : list ascii) : option t :=
  '(m, fin') ← read_map ∅ fin; Some (mk m fin').

(** [GetVersion], which returns a reference into [vinfo]. *)
Definition GetVersion (a : t) (library : string) : VersionInfo * t :=
  let '(v, m) := map_index default_VersionInfo (vinfo a) library in
  (v, mk m (fin a)).

(** The constructor of [BinaryOutArchive]: the process-wide table, given
    by its entries in iteration order, goes through
    [Archive::operator & (std::map<T1,T2> &)]. *)
Definition entry_ops (e : string * VersionInfo) : list BinaryOut.op :=
  [BinaryOut.OpString (fst e); BinaryOut.OpString (to_string (snd e))].

Definition header_ops (table : list (string * VersionInfo)) : list BinaryOut.op :=
  BinaryOut.OpPrim (PSizeT (to_size_t (Z.of_nat (length table)))) ::
  flat_map entry_ops table.

Definition create_out (table : list (string * VersionInfo)) (out : list ascii)
  : BinaryOut.t :=
  BinaryOut.run (header_ops table) (BinaryOut.init out).

(** The entries a reader can take in: both strings of an entry fit a
    32-bit signed length and the version survives its string form. *)
Definition entry_ok (e : string * VersionInfo) : Prop :=
  Z.of_nat (String.length (fst e)) < 2 ^ 31 /\
  Z.of_nat (String.length (to_string (snd e))) < 2 ^ 31 /\
  of_string (to_string (snd e)) = snd e.

End archive.
End BinaryIn.

(** ** TextInArchive *)

Module TextIn.

(** A [std::istream]: the characters ahead and the fail bit. *)
Record istream := mkis { input : list ascii; failed : bool }.

(** [std::isspace] in the "C" locale. *)
Definition isspace (c : ascii) : bool :=
  let n := N_of_ascii c in ((9 <=? n) && (n <=? 13) || (n =? 32))%N.

Fixpoint skipws (l : list ascii) : list ascii :=
  match l with
  | [] => []
  | c :: r => if isspace c then skipws r else l
  end.

(** [*fin >> c] for a [char]: leading white space is skipped and one
    character extracted; at the end of the input, or on a stream that
    has failed, nothing is stored. *)
Definition extract_char (s : istream) : option ascii * istream :=
  if failed s then (None, s)
  else match skipws (input s) with
       | [] => (None, mkis [] true)
       | c :: r => (Some c, mkis r false)
       end.

Section archive.
Context {VersionInfo : Type}.
Variable default_VersionInfo : VersionInfo.

Record t := mk { vinfo : gmap string VersionInfo; fin : istream }.

(** [operator & (bool & b)]; [c0] is what the uninitialised [char c]
    happens to hold. *)
Definition read_bool (c0 : ascii) (a : t) : bool * t :=
  let '(oc, s) := extract_char (fin a) in
  let c := default c0 oc in
  (Ascii.eqb c "t", mk (vinfo a) s).

Definition GetVersion (a : t) (library : string) : VersionInfo * t :=
  let '(v, m) := map_index default_VersionInfo (vinfo a) library in
  (v, mk m (fin a)).

End archive.
End TextIn.

(** ** The [Archive] base class: references, identity tables, registry *)

Module Archive.

(** [Demangle(typeid(T).name())]: a type is known by its nm. *)
Abbreviation type_info := string.

(** An address is a complete object (a block of the memory) and the
    offset of a subobject in it; [void*] is such an address or null. *)
Abbreviation addr := (nat * nat)%type.
Abbreviation ptr := (option (nat * nat)).

(** The error kinds of the specification, and the two outcomes that are
    not exceptions: undefined behaviour and the exhaustion of the
    recursion budget of the model. *)
Inductive error :=
| UnregisteredPolymorphic
| NotDefaultConstructible
| CastFailure
| StreamFailure
| FormatMismatch
| Undefined
| OutOfFuel.

Inductive result (A : Type) :=
| Ok (a : A)
| Err (e : error).
Arguments Ok {A} a.
Arguments Err {A} e.

Definition bind {A B : Type} (r : result A) (k : A -> result B) : result B :=
  match r with
  | Ok a => k a
  | Err e => Err e
  end.

#[global] Instance result_bind : MBind result := fun A B k r => bind r k.

(** What an archivable member holds. A [std::shared_ptr<T>] is kept as
    the pointer it stores; its control block is not part of the model.
    A [std::vector<T>] is kept with a value-initialised [T], which is
    what [resize] fills it with. *)
#[local] Unset Elimination Schemes.

Inductive value :=
| VInt (i : Z)
| VBool (b : bool)
| VString (s : string)
| VShared (T : type_info) (p : ptr)
| VRaw (T : type_info) (p : ptr)
| VVec (elem : value) (elems : list value).

#[local] Set Elimination Schemes.

(** A complete object: its dynamic type and the members its
    [DoArchive] hands to the archive, in that order. *)
Record object := mkobj { dyn_type : type_info; fields : list value }.

(** The memory: the objects alive and the block [new] hands out next. *)
Record memory := mkmem { objs : gmap nat object; next_block : nat }.

(** The logical stream both encoders implement: one token for each
    call of a pure virtual [operator &]. *)
Inductive token :=
| TokInt (i : Z)
| TokSize (n : Z)
| TokBool (b : bool)
| TokString (s : string).

(** [detail::ClassArchiveInfo]. *)
Record ClassArchiveInfo := mkinfo {
  creator : type_info -> memory -> result (ptr * memory);
  upcaster : type_info -> ptr -> result ptr;
  downcaster : type_info -> ptr -> result ptr
}.

(** The members of [Archive], the stream of the derived class, and the
    memory the archive works on. *)
Record t := mk {
  is_output : bool;
  shared_ptr_count : Z;
  ptr_count : Z;
  shared_ptr2nr : gmap ptr Z;
  ptr2nr : gmap ptr Z;
  nr2shared_ptr : list ptr;
  nr2ptr : list ptr;
  stream : list token;
  mem : memory
}.

(** [Archive(bool ais_output)] over a stream and a memory. *)
Definition create (ais_output : bool) (s : list token) (m : memory) : t :=
  mk ais_output 0 0 ∅ ∅ [] [] s m.

Definition Output (a : t) : bool := is_output a.
Definition Input (a : t) : bool := negb (is_output a).

Definition set_stream (s : list token) (a : t) : t :=
  mk (is_output a) (shared_ptr_count a) (ptr_count a) (shared_ptr2nr a)
     (ptr2nr a) (nr2shared_ptr a) (nr2ptr a) s (mem a).

Definition set_mem (m : memory) (a : t) : t :=
  mk (is_output a) (shared_ptr_count a) (ptr_count a) (shared_ptr2nr a)
     (ptr2nr a) (nr2shared_ptr a) (nr2ptr a) (stream a) m.

(** [shared_ptr2nr[reg_ptr] = shared_ptr_count++]. *)
Definition register_shared (reg_ptr : ptr) (a : t) : t :=
  mk (is_output a) (shared_ptr_count a + 1) (ptr_count a)
     (<[reg_ptr := shared_ptr_count a]> (shared_ptr2nr a))
     (ptr2nr a) (nr2shared_ptr a) (nr2ptr a) (stream a) (mem a).

(** [ptr2nr[reg_ptr] = ptr_count++]. *)
Definition register_ptr (reg_ptr : ptr) (a : t) : t :=
  mk (is_output a) (shared_ptr_count a) (ptr_count a + 1) (shared_ptr2nr a)
     (<[reg_ptr := ptr_count a]> (ptr2nr a))
     (nr2shared_ptr a) (nr2ptr a) (stream a) (mem a).

(** [nr2shared_ptr.push_back(p)] and [nr2ptr.push_back(p)]. *)
Definition push_shared (p : ptr) (a : t) : t :=
  mk (is_output a) (shared_ptr_count a) (ptr_count a) (shared_ptr2nr a)
     (ptr2nr a) (nr2shared_ptr a ++ [p]) (nr2ptr a) (stream a) (mem a).

Definition push_ptr (p : ptr) (a : t) : t :=
  mk (is_output a) (shared_ptr_count a) (ptr_count a) (shared_ptr2nr a)
     (ptr2nr a) (nr2shared_ptr a) (nr2ptr a ++ [p]) (stream a) (mem a).

(** [v[nr]] on a [std::vector] indexed by an [int]. *)
Definition vector_at (v : list ptr) (nr : Z) : result ptr :=
  if nr <? 0 then Err Undefined
  else match v !! Z.to_nat nr with
       | Some p => Ok p
       | None => Err Undefined
       end.

(** *** The pure virtual operators, by their contract *)

Definition emit (k : token) (a : t) : t := set_stream (stream a ++ [k]) a.

Definition xfer_int (i : Z) (a : t) : result (Z * t) :=
  if Output a then Ok (i, emit (TokInt i) a)
  else match stream a with
       | TokInt j :: s => Ok (j, set_stream s a)
       | _ :: _ => Err FormatMismatch
       | [] => Err StreamFailure
       end.

Definition xfer_size (n : Z) (a : t) : result (Z * t) :=
  if Output a then Ok (n, emit (TokSize n) a)
  else match stream a with
       | TokSize j :: s => Ok (j, set_stream s a)
       | _ :: _ => Err FormatMismatch
       | [] => Err StreamFailure
       end.

Definition xfer_bool (b : bool) (a : t) : result (bool * t) :=
  if Output a then Ok (b, emit (TokBool b) a)
  else match stream a with
       | TokBool c :: s => Ok (c, set_stream s a)
       | _ :: _ => Err FormatMismatch
       | [] => Err StreamFailure
       end.

Definition xfer_string (str : string) (a : t) : result (string * t) :=
  if Output a then Ok (str, emit (TokString str) a)
  else match stream a with
       | TokString c :: s => Ok (c, set_stream s a)
       | _ :: _ => Err FormatMismatch
       | [] => Err StreamFailure
       end.

(** [operator <<]: the value is copied and the copy archived. *)
Definition put_int (i : Z) (a : t) : result t :=
  '(_, a') ← xfer_int i a; Ok a'.
Definition put_bool (b : bool) (a : t) : result t :=
  '(_, a') ← xfer_bool b a; Ok a'.
Definition put_string (s : string) (a : t) : result t :=
  '(_, a') ← xfer_string s a; Ok a'.

(** [Archive::Do(T* data, size_t n)] of an output archive: the
    elements one after the other. *)
Definition Do_write (elt : value -> t -> result (value * t))
  : list value -> t -> result t :=
  fix Do (data : list value) (a : t) : result t :=
    match data with
    | [] => Ok a
    | x :: data' => '(_, a') ← elt x a; Do data' a'
    end.

(** [Do] of an input archive, after [v.resize(size)]: [n] elements are
    read, each by [elt], the transfer into a value-initialised element
    (no reader looks at what its destination holds). *)
Definition Do_read (elt : t -> result (value * t))
  : nat -> t -> result (list value * t) :=
  fix Do (n : nat) (a : t) : result (list value * t) :=
    match n with
    | O => Ok ([], a)
    | S n' => '(x, a') ← elt a; '(data', a'') ← Do n' a'; Ok (x :: data', a'')
    end.

(** *** Memory *)

(** [typeid( *p )]. *)
Definition typeid_at (m : memory) (a : addr) : result type_info :=
  match objs m !! fst a with
  | Some o => Ok (dyn_type o)
  | None => Err Undefined
  end.

(** [new T] with the members [fs]. *)
Definition alloc (T : type_info) (fs : list value) (m : memory) : addr * memory :=
  ((next_block m, 0%nat),
   mkmem (<[next_block m := mkobj T fs]> (objs m)) (S (next_block m))).

Definition get_field (m : memory) (b i : nat) : result value :=
  match objs m !! b with
  | Some o => match fields o !! i with
              | Some v => Ok v
              | None => Err Undefined
              end
  | None => Err Undefined
  end.

Definition set_field (b i : nat) (v : value) (m : memory) : memory :=
  match objs m !! b with
  | Some o =>
      mkmem (<[b := mkobj (dyn_type o) (<[i := v]> (fields o))]> (objs m))
            (next_block m)
  | None => m
  end.

Section protocol.

(** The archivable classes of the program and the registry, which
    [archive.cpp] keeps: both are parameters. [default_fields T] is
    [None] when [std::is_constructible<T>] is false and otherwise the
    members of a fresh [new T]. *)
Variable default_fields : type_info -> option (list value).
Variable IsRegistered : type_info -> bool.
Variable GetArchiveRegister : type_info -> result ClassArchiveInfo.

Definition is_constructible (T : type_info) : bool :=
  bool_decide (is_Some (default_fields T)).

(** [detail::constructIfPossible<T>()]. *)
Definition constructIfPossible (T : type_info) (m : memory) : result (addr * memory) :=
  match default_fields T with
  | Some fs => Ok (alloc T fs m)
  | None => Err NotDefaultConstructible
  end.

(** The transfer of a [T*]; [body p a] stands for [( *this) & ( *p)]. *)
Definition xfer_raw (body : addr -> t -> result t)
    (T : type_info) (p : ptr) (a : t) : result (ptr * t) :=
  if Output a then
    match p with
    | None => a1 ← put_int (-2) a; Ok (p, a1)
    | Some pa =>
        D ← typeid_at (mem a) pa;
        reg_ptr ←
          (if negb (String.eqb T D) then
             if negb (IsRegistered D) then Err UnregisteredPolymorphic
             else info ← GetArchiveRegister D; downcaster info T p
           else Ok p);
        match ptr2nr a !! reg_ptr with
        | None =>
            let a1 := register_ptr reg_ptr a in
            if String.eqb D T then
              if is_constructible T then
                a2 ← put_int (-1) a1;
                a3 ← body pa a2;
                Ok (p, a3)
              else Err NotDefaultConstructible
            else
              if negb (IsRegistered D) then Err UnregisteredPolymorphic
              else
                a2 ← put_int (-3) a1;
                a3 ← put_string D a2;
                a4 ← body pa a3;
                Ok (p, a4)
        | Some nr =>
            '(_, a1) ← xfer_int nr a;
            let downcasted := negb (bool_decide (reg_ptr = p)) in
            a2 ← put_bool downcasted a1;
            a3 ← put_string D a2;
            Ok (p, a3)
        end
    end
  else
    '(nr, a1) ← xfer_int 0 a;
    if nr =? -2 then Ok (None, a1)
    else if nr =? -1 then
      '(pa, m) ← constructIfPossible T (mem a1);
      let a2 := push_ptr (Some pa) (set_mem m a1) in
      a3 ← body pa a2;
      Ok (Some pa, a3)
    else if nr =? -3 then
      '(nm, a2) ← xfer_string EmptyString a1;
      info ← GetArchiveRegister nm;
      '(p', m) ← creator info T (mem a2);
      reg ← downcaster info T p';
      let a3 := push_ptr reg (set_mem m a2) in
      match p' with
      | Some pa => a4 ← body pa a3; Ok (p', a4)
      | None => Err Undefined
      end
    else
      '(downcasted, a2) ← xfer_bool false a1;
      '(nm, a3) ← xfer_string EmptyString a2;
      if (downcasted : bool) then
        info ← GetArchiveRegister nm;
        stored ← vector_at (nr2ptr a3) nr;
        p' ← upcaster info T stored;
        Ok (p', a3)
      else
        stored ← vector_at (nr2ptr a3) nr;
        Ok (stored, a3).

(** The transfer of a [std::shared_ptr<T>]; [raw] is the transfer of
    the [T*] inside. *)
Definition xfer_shared (raw : type_info -> ptr -> t -> result (ptr * t))
    (T : type_info) (p : ptr) (a : t) : result (ptr * t) :=
  if Output a then
    match p with
    | None => a1 ← put_int (-2) a; Ok (p, a1)
    | Some pa =>
        D ← typeid_at (mem a) pa;
        '(reg_ptr, neededDowncast) ←
          (if negb (String.eqb T D) then
             if negb (IsRegistered D) then Err UnregisteredPolymorphic
             else
               info ← GetArchiveRegister D;
               r ← downcaster info T p;
               Ok (r, negb (bool_decide (r = p)))
           else Ok (p, false));
        match shared_ptr2nr a !! reg_ptr with
        | None =>
            a1 ← put_int (-1) a;
            '(_, a2) ← xfer_bool neededDowncast a1;
            '(_, a3) ← raw T p a2;
            a4 ← (if (neededDowncast : bool) then put_string D a3 else Ok a3);
            Ok (p, register_shared reg_ptr a4)
        | Some nr =>
            a1 ← put_int nr a;
            a2 ← put_bool neededDowncast a1;
            a3 ← (if (neededDowncast : bool) then put_string D a2 else Ok a2);
            Ok (p, a3)
        end
    end
  else
    '(nr, a1) ← xfer_int 0 a;
    if nr =? -2 then Ok (None, a1)
    else if nr =? -1 then
      '(neededDowncast, a2) ← xfer_bool false a1;
      '(p', a3) ← raw T None a2;
      if (neededDowncast : bool) then
        '(nm, a4) ← xfer_string EmptyString a3;
        info ← GetArchiveRegister nm;
        reg ← downcaster info T p';
        Ok (p', push_shared reg a4)
      else Ok (p', push_shared p' a3)
    else
      other ← vector_at (nr2shared_ptr a1) nr;
      '(neededDowncast, a2) ← xfer_bool false a1;
      if (neededDowncast : bool) then
        '(nm, a3) ← xfer_string EmptyString a2;
        info ← GetArchiveRegister nm;
        p' ← upcaster info T other;
        Ok (p', a3)
      else Ok (other, a2).

(** [ar & x] for a member [x], by the type of the member; the last
    case is [Archive::operator & (std::vector<T> &)]. *)
Fixpoint xfer_value (raw : type_info -> ptr -> t -> result (ptr * t))
    (v : value) (a : t) {struct v} : result (value * t) :=
  match v with
  | VInt i => '(j, a') ← xfer_int i a; Ok (VInt j, a')
  | VBool b => '(c, a') ← xfer_bool b a; Ok (VBool c, a')
  | VString s => '(c, a') ← xfer_string s a; Ok (VString c, a')
  | VShared T p => '(q, a') ← xfer_shared raw T p a; Ok (VShared T q, a')
  | VRaw T p => '(q, a') ← raw T p a; Ok (VRaw T q, a')
  | VVec elem elems =>
      '(size, a1) ← xfer_size (Z.of_nat (length elems)) a;
      if Output a then
        a2 ← Do_write (xfer_value raw) elems a1;
        Ok (v, a2)
      else
        '(elems', a2) ← Do_read (xfer_value raw elem) (Z.to_nat size) a1;
        Ok (VVec elem elems', a2)
  end.

(** [ar & member_i] inside the [DoArchive] of the object in block [b]:
    the member is written from, or read into, its place. *)
Definition xfer_member (raw : type_info -> ptr -> t -> result (ptr * t))
    (b i : nat) (a : t) : result t :=
  v ← get_field (mem a) b i;
  '(v', a') ← xfer_value raw v a;
  Ok (if Output a' then a' else set_mem (set_field b i v' (mem a')) a').

Fixpoint xfer_members (raw : type_info -> ptr -> t -> result (ptr * t))
    (b : nat) (idx : list nat) (a : t) : result t :=
  match idx with
  | [] => Ok a
  | i :: rest => a' ← xfer_member raw b i a; xfer_members raw b rest a'
  end.

(** [val.DoArchive( *this)] on the complete object that holds [pa]. *)
Definition DoArchive (raw : type_info -> ptr -> t -> result (ptr * t))
    (pa : addr) (a : t) : result t :=
  match objs (mem a) !! fst pa with
  | Some o => xfer_members raw (fst pa) (seq 0 (length (fields o))) a
  | None => Err Undefined
  end.

(** [Archive::operator & (T *&)]; [fuel] bounds the nesting of objects
    inside objects. *)
Fixpoint archive_raw (fuel : nat) (T : type_info) (p : ptr) (a : t)
  : result (ptr * t) :=
  match fuel with
  | O => Err OutOfFuel
  | S f => xfer_raw (DoArchive (archive_raw f)) T p a
  end.

(** [Archive::operator & (std::shared_ptr<T> &)]. *)
Definition archive_shared (fuel : nat) (T : type_info) (p : ptr) (a : t)
  : result (ptr * t) :=
  xfer_shared (archive_raw fuel) T p a.

(** [ar & v] for any archivable [v]. *)
Definition archive_value (fuel : nat) (v : value) (a : t) : result (value * t) :=
  xfer_value (archive_raw fuel) v a.

(** Saving a value of the memory [m] to a fresh output archive, and
    loading into the destination [dst] from a fresh input archive over
    [s], in an empty memory. *)
Definition save (fuel : nat) (m : memory) (v : value) : result (list token) :=
  '(_, a) ← archive_value fuel v (create true [] m); Ok (stream a).

Definition load (fuel : nat) (dst : value) (s : list token) : result (value * t) :=
  archive_value fuel dst (create false s (mkmem ∅ 0)).

End protocol.

(** What follows a back-reference ID on the stream: for a shared
    reference the flag and, if it is set, the name of the dynamic type;
    for a raw reference the flag and the name. *)
Definition after_shared_id (flag : bool) (D : type_info) : list token :=
  TokBool flag :: (if flag then [TokString D] else []).

Definition after_raw_id (flag : bool) (D : type_info) : list token :=
  [TokBool flag; TokString D].

(** The sentinel that announces a referent met for the first time
    through a raw reference of static type [T]. *)
Definition new_raw_sentinel (T D : type_info) : list token :=
  if String.eqb D T then [TokInt (-1)] else [TokInt (-3); TokString D].

End Archive.

(** ** Archivable graphs and their images *)

Module Graph.
Import Archive.

(** Two members of the same type. *)
Fixpoint same_kind (v w : value) {struct v} : bool :=
  match v, w with
  | VInt _, VInt _ => true
  | VBool _, VBool _ => true
  | VString _, VString _ => true
  | VShared T _, VShared U _ => String.eqb T U
  | VRaw T _, VRaw U _ => String.eqb T U
  | VVec d _, VVec e _ => same_kind d e
  | _, _ => false
  end.

Fixpoint same_shape (vs ws : list value) : bool :=
  match vs, ws with
  | [], [] => true
  | v :: vs', w :: ws' => same_kind v w && same_shape vs' ws'
  | _, _ => false
  end.

Section wf.
Variable default_fields : type_info -> option (list value).
Variable IsRegistered : type_info -> bool.
Variable GetArchiveRegister : type_info -> result ClassArchiveInfo.

(** [layout D T]: the offset of the base subobject [T] in a complete
    object of type [D]. *)
Variable layout : type_info -> type_info -> option nat.

(** A reference of static type [T] in the memory [m] can be archived:
    it is null, or it addresses a live object of a default
    constructible class, through that very class at offset 0 or
    through a base of a registered class at the offset of the base. *)
Definition wf_ptr (m : memory) (T : type_info) (p : ptr) : bool :=
  match p with
  | None => true
  | Some (b, o) =>
      match objs m !! b with
      | Some ob =>
          let D := dyn_type ob in
          bool_decide (is_Some (default_fields D)) &&
          (if String.eqb T D then bool_decide (o = 0%nat)
           else IsRegistered D && bool_decide (layout D T = Some o))
      | None => false
      end
  end.

(** Every reference in a member can be archived, and the elements of
    a vector are of the type of the vector's elements. *)
Fixpoint wf_value (m : memory) (v : value) {struct v} : bool :=
  match v with
  | VShared T p | VRaw T p => wf_ptr m T p
  | VVec d l => forallb (fun e => wf_value m e && same_kind e d) l
  | _ => true
  end.

(** The members of an object are those its class declares, and every
    reference among them can be archived. *)
Definition wf_object (m : memory) (ob : object) : bool :=
  forallb (wf_value m) (fields ob) &&
  match default_fields (dyn_type ob) with
  | Some fs => same_shape (fields ob) fs
  | None => false
  end.

Definition wf_mem (m : memory) : Prop :=
  map_Forall (fun _ ob => wf_object m ob = true) (objs m).

(** The registry does what [RegisterClassForArchive] is meant to set
    up: for a registered class [D] and a base [T] at offset [o], the
    downcaster takes the base subobject to the complete object, the
    upcaster goes back, and the creator makes a fresh [D] and returns
    its [T] subobject. *)
Definition registry_sound : Prop :=
  forall D, IsRegistered D = true ->
    exists info, GetArchiveRegister D = Ok info /\
      forall T o, layout D T = Some o ->
        (forall b, downcaster info T (Some (b, o)) = Ok (Some (b, 0%nat))) /\
        (forall b, upcaster info T (Some (b, 0%nat)) = Ok (Some (b, o))) /\
        (forall m', creator info T m' =
           match constructIfPossible default_fields D m' with
           | Ok (pa, m'') => Ok (Some (fst pa, o), m'')
           | Err e => Err e
           end).

(** [reg] is the key under which the identity tables know the referent
    of [p], a reference of static type [T] to an object of dynamic type
    [D]: [p] itself when the two types agree, and otherwise what the
    downcaster of [D] returns. *)
Definition normalized (T D : type_info) (p reg : ptr) : Prop :=
  (T = D /\ reg = p) \/
  (T <> D /\ IsRegistered D = true /\
   exists info, GetArchiveRegister D = Ok info /\ downcaster info T p = Ok reg).

End wf.

(** *** The image of a graph under a renaming of blocks *)

Definition ptr_rel (f : gmap nat nat) (p q : ptr) : Prop :=
  match p, q with
  | None, None => True
  | Some (b, o), Some (b', o') => f !! b = Some b' /\ o = o'
  | _, _ => False
  end.

Fixpoint value_rel (f : gmap nat nat) (v w : value) {struct v} : Prop :=
  match v, w with
  | VInt i, VInt j => i = j
  | VBool b, VBool c => b = c
  | VString s, VString r => s = r
  | VShared T p, VShared U q => T = U /\ ptr_rel f p q
  | VRaw T p, VRaw U q => T = U /\ ptr_rel f p q
  | VVec d l, VVec e l' =>
      same_kind d e = true /\
      (fix all2 (l l' : list value) : Prop :=
         match l, l' with
         | [], [] => True
         | x :: r, y :: r' => value_rel f x y /\ all2 r r'
         | _, _ => False
         end) l l'
  | _, _ => False
  end.

Definition object_rel (f : gmap nat nat) (o o' : object) : Prop :=
  dyn_type o = dyn_type o' /\ Forall2 (value_rel f) (fields o) (fields o').

Definition injective (f : gmap nat nat) : Prop :=
  forall b1 b2 b', f !! b1 = Some b' -> f !! b2 = Some b' -> b1 = b2.

(** [m'] holds an image of the part of [m] that [f] names: every block
    of the domain of [f] is an object of [m], its image is an object of
    [m'] of the same dynamic type, and the members correspond, the
    references through [f]. *)
Definition isomorphic (f : gmap nat nat) (m m' : memory) : Prop :=
  injective f /\
  forall b b', f !! b = Some b' ->
    exists o o', objs m !! b = Some o /\ objs m' !! b' = Some o' /\ object_rel f o o'.

(** *** Edges, reachable objects, cycles *)







(** *** The writer and the reader side by side *)

(** The writer works on the memory [m], which it does not change. *)
Definition writer_of (m : memory) (W : t) : Prop :=
  Output W = true /\ mem W = m.

(** Every object of [m] outside [U] has been given a raw ID. *)
Definition covers (m : memory) (U : gset nat) (W : t) : Prop :=
  forall b, is_Some (objs m !! b) -> b ∉ U -> is_Some (ptr2nr W !! Some (b, 0%nat)).

(** The raw table only grows. *)
Definition grows (W W' : t) : Prop :=
  forall key, is_Some (ptr2nr W !! key) -> is_Some (ptr2nr W' !! key).

(** A reader [R] that has consumed what the writer [W] has produced:
    the IDs the writer has given out index, in the vectors of the
    reader, the images under [f] of the objects they stand for; the
    counters agree with the sizes of the vectors; [f] renames exactly
    objects that have a raw ID, injectively, to blocks the reader has
    allocated; and every renamed object, except those of [P] whose
    members are still being read, has its image in the memory of the
    reader. *)
Record sim (m : memory) (f : gmap nat nat) (P : gset nat) (W R : t) : Prop := mksim {
  s_in : Output R = false;
  s_raw : forall key n, ptr2nr W !! key = Some n ->
            exists b b', key = Some (b, 0%nat) /\ f !! b = Some b' /\ 0 <= n /\
                         nr2ptr R !! Z.to_nat n = Some (Some (b', 0%nat));
  s_shared : forall key n, shared_ptr2nr W !! key = Some n ->
            exists b b', key = Some (b, 0%nat) /\ f !! b = Some b' /\ 0 <= n /\
                         nr2shared_ptr R !! Z.to_nat n = Some (Some (b', 0%nat));
  s_count : ptr_count W = Z.of_nat (length (nr2ptr R));
  s_shared_count : shared_ptr_count W = Z.of_nat (length (nr2shared_ptr R));
  s_dom : forall b, is_Some (f !! b) -> is_Some (ptr2nr W !! Some (b, 0%nat));
  s_inj : injective f;
  s_range : forall b b', f !! b = Some b' -> (b' < next_block (mem R))%nat;
  s_fresh : forall b', (next_block (mem R) <= b')%nat -> objs (mem R) !! b' = None;
  s_done : forall b b', f !! b = Some b' -> b ∉ P ->
             exists o o', objs m !! b = Some o /\ objs (mem R) !! b' = Some o' /\
                          object_rel f o o'
}.

(** The reader has left alone what it had allocated, except block [x]. *)
Definition frame_except (x : option nat) (R R' : t) : Prop :=
  (next_block (mem R) <= next_block (mem R'))%nat /\
  forall b', (b' < next_block (mem R))%nat -> x <> Some b' ->
             objs (mem R') !! b' = objs (mem R) !! b'.

(** From [a] to [a'] an output archive has only added tokens. *)
Definition appends (a a' : t) : Prop :=
  Output a' = true /\ exists ts, stream a' = stream a ++ ts.

(** The contract of a transfer: on the writer [W] it succeeds, returns
    its argument [x] and appends some tokens [ts]; on any reader in
    step with [W] whose stream starts with [ts], and for any
    destination [dst] that suits, it succeeds, consumes exactly [ts],
    and returns an image of [x] under a renaming that extends the one
    before the call. *)
Definition contract {A : Type} (m : memory) (rel : gmap nat nat -> A -> A -> Prop)
    (on_writer : t -> result (A * t)) (on_reader : A -> t -> result (A * t))
    (suits : A -> Prop) (x : A) (W : t) : Prop :=
  exists W' ts,
    on_writer W = Ok (x, W') /\ writer_of m W' /\
    stream W' = stream W ++ ts /\ grows W W' /\
    forall f P R rest dst,
      suits dst -> sim m f P W R -> stream R = ts ++ rest ->
      exists f' R' x',
        on_reader dst R = Ok (x', R') /\ stream R' = rest /\ f ⊆ f' /\
        rel f' x x' /\ sim m f' P W' R' /\ frame_except None R R'.

End Graph.

(** ** A program to run the archive on

    The classes of the scenarios of the specification: a list node with
    a shared successor, and [Derived : Base1, Base2] with [Base2] at
    offset 1, which alone is registered; a [Holder] keeps references to
    [Derived] objects through both bases. *)

Module Example.
Import Archive.
Local Open Scope string_scope.

Definition default_fields (T : type_info) : option (list value) :=
  if String.eqb T "Node" then Some [VInt 0; VShared "Node" None]
  else if String.eqb T "Derived" then Some [VInt 0]
  else if String.eqb T "Holder" then
    Some [VRaw "Base1" None; VRaw "Base2" None; VRaw "Base1" None;
          VShared "Base2" None; VShared "Base1" None;
          VVec (VRaw "Base2" None) []]
  else if String.eqb T "Pair" then Some [VRaw "Node" None; VRaw "Node" None]
  else if String.eqb T "Ring" then Some [VVec (VShared "Ring" None) []; VString ""]
  else None.

Definition layout (D T : type_info) : option nat :=
  if String.eqb D "Derived" then
    if String.eqb T "Base1" then Some 0%nat
    else if String.eqb T "Base2" then Some 1%nat
    else None
  else None.

Definition cast_to (o : nat) (p : ptr) : ptr :=
  match p with
  | Some (b, _) => Some (b, o)
  | None => None
  end.

Definition info_of (D : type_info) : ClassArchiveInfo :=
  mkinfo
    (fun T m =>
       match layout D T with
       | Some o =>
           '(pa, m') ← constructIfPossible default_fields D m;
           Ok (Some (fst pa, o), m')
       | None => Err CastFailure
       end)
    (fun T p =>
       match layout D T with
       | Some o => Ok (cast_to o p)
       | None => Err CastFailure
       end)
    (fun T p =>
       match layout D T with
       | Some _ => Ok (cast_to 0 p)
       | None => Err CastFailure
       end).

Definition IsRegistered (T : type_info) : bool := String.eqb T "Derived".

Definition GetArchiveRegister (T : type_info) : result ClassArchiveInfo :=
  if IsRegistered T then Ok (info_of T) else Err UnregisteredPolymorphic.


(** A process in which nothing has been registered. *)
Definition nothing_registered (T : type_info) : bool := false.
Definition empty_register (T : type_info) : result ClassArchiveInfo :=
  Err UnregisteredPolymorphic.

(** [p = new Node{7, next = p}]. *)
Definition self_loop : memory :=
  mkmem {[ 0%nat := mkobj "Node" [VInt 7; VShared "Node" (Some (0, 0)%nat)] ]} 1.

(** Two [Derived] objects and a [Holder] of references to them, some
    of them in a vector. *)
Definition two_derived : memory :=
  mkmem {[ 0%nat := mkobj "Derived" [VInt 1];
           1%nat := mkobj "Derived" [VInt 2];
           2%nat := mkobj "Holder"
                      [VRaw "Base1" (Some (0, 0)%nat);
                       VRaw "Base2" (Some (0, 1)%nat);
                       VRaw "Base1" (Some (1, 0)%nat);
                       VShared "Base2" (Some (1, 1)%nat);
                       VShared "Base1" (Some (1, 0)%nat);
                       VVec (VRaw "Base2" None)
                            [VRaw "Base2" (Some (1, 1)%nat); VRaw "Base2" None;
                             VRaw "Base2" (Some (0, 1)%nat)]] ]} 3.

(** Two objects that keep their neighbours in a vector of shared
    references: each is a neighbour of the other, and the first of
    itself as well. *)
Definition two_ring : memory :=
  mkmem {[ 0%nat := mkobj "Ring"
                      [VVec (VShared "Ring" None)
                            [VShared "Ring" (Some (1, 0)%nat);
                             VShared "Ring" (Some (0, 0)%nat)];
                       VString "a"];
           1%nat := mkobj "Ring"
                      [VVec (VShared "Ring" None) [VShared "Ring" (Some (0, 0)%nat)];
                       VString "b"] ]} 2.

(** Two references of the exact type to one [Node]. *)
Definition pair_of_node : memory :=
  mkmem {[ 0%nat := mkobj "Node" [VInt 3; VShared "Node" None];
           1%nat := mkobj "Pair" [VRaw "Node" (Some (0, 0)%nat);
                                  VRaw "Node" (Some (0, 0)%nat)] ]} 2.


(** The streams of the first [Derived] of [two_derived] saved through a
    [Base1*], and of [pair_of_node] saved through a [Pair*]. *)
Definition derived_stream : list token :=
  [TokInt (-3); TokString "Derived"; TokInt 1].

Definition pair_stream : list token :=
  [TokInt (-1); TokInt (-1); TokInt 3; TokInt (-2);
   TokInt 1; TokBool false; TokString "Node"].

End Example.

(** * Facts about the native representations *)

Module NativeFacts.
Import Native.

Lemma le_bytes_length n z : length (le_bytes n z) = n.
Proof. revert z; induction n as [|n IH]; intros z; simpl; [done|]. by rewrite IH. Qed.

Lemma repr_length x : length (repr x) = sizeof x.
Proof. destruct x; apply le_bytes_length. Qed.

Lemma Z_of_char_of_Z z : Z_of_char (char_of_Z z) = z mod 256.
Proof.
  unfold Z_of_char, char_of_Z.
  rewrite N_ascii_embedding.
  - apply Z2N.id. apply Z.mod_pos_bound. lia.
  - assert (0 <= z mod 256 < 256) by (apply Z.mod_pos_bound; lia). lia.
Qed.

Lemma le_value_bytes n z : le_value (le_bytes n z) = z mod 2 ^ (8 * Z.of_nat n).
Proof.
  revert z; induction n as [|n IH]; intros z.
  - simpl. by rewrite Z.mod_1_r.
  - cbn [le_bytes le_value]. rewrite Z_of_char_of_Z, IH.
    replace (8 * Z.of_nat (S n)) with (8 + 8 * Z.of_nat n) by lia.
    rewrite Z.pow_add_r by lia. change (2 ^ 8) with 256.
    rewrite Z.rem_mul_r by lia. lia.
Qed.

End NativeFacts.

(** * The binary writer *)

Module BinaryOutFacts.
Import Native BinaryOut.

Lemma to_size_t_small z : 0 <= z <= BUFFERSIZE -> to_size_t z = z.
Proof. unfold to_size_t, BUFFERSIZE. intros H. apply Z.mod_small. lia. Qed.

Lemma wf_init out : wf (init out).
Proof.
  unfold wf, ptr_ok, init. split; [unfold BUFFERSIZE; simpl; lia|].
  cbn [buffer]. apply length_replicate.
Qed.

Lemma store_length buf off x :
  0 <= off -> (Z.to_nat off + length x <= length buf)%nat ->
  length (store buf off x) = length buf.
Proof.
  intros Hoff Hle. unfold store.
  rewrite !length_app, length_take, length_drop. lia.
Qed.

Lemma store_take buf off x :
  (Z.to_nat off <= length buf)%nat ->
  take (Z.to_nat off + length x) (store buf off x) = take (Z.to_nat off) buf ++ x.
Proof.
  intros Hle. unfold store.
  rewrite app_assoc.
  rewrite take_app_le by (rewrite length_app, length_take; lia).
  rewrite take_ge; [done|]. rewrite length_app, length_take. lia.
Qed.

Section write.
Variables (a : t) (x : list ascii).
Hypothesis Hwf : wf a.
Hypothesis Hsize : Z.of_nat (length x) <= BUFFERSIZE.

Lemma Write_cases :
  (BUFFERSIZE - Z.of_nat (length x) < ptr a /\
   Write a x = {| buffer := store (buffer a) 0 x;
                  ptr := Z.of_nat (length x);
                  fout := stream_write (fout a) (buffer a) (ptr a) |}) \/
  (ptr a + Z.of_nat (length x) <= BUFFERSIZE /\
   Write a x = {| buffer := store (buffer a) (ptr a) x;
                  ptr := ptr a + Z.of_nat (length x);
                  fout := fout a |}).
Proof.
  destruct Hwf as [[H0 H1] _]. unfold Write.
  rewrite to_size_t_small by lia.
  destruct (Z.ltb_spec (BUFFERSIZE - Z.of_nat (length x)) (ptr a)) as [Hlt|Hge].
  - left. split; [lia|done].
  - right. split; [lia|]. rewrite to_size_t_small by lia. done.
Qed.

Lemma Write_wf : wf (Write a x).
Proof.
  destruct Hwf as [[H0 H1] Hlen].
  destruct Write_cases as [[Hc ->]|[Hc ->]]; unfold wf, ptr_ok; simpl.
  - split; [lia|]. rewrite store_length; [done|lia|]. rewrite Hlen. simpl. lia.
  - split; [lia|]. rewrite store_length; [done|lia|]. rewrite Hlen. lia.
Qed.

Lemma Write_pending : pending (Write a x) = pending a ++ x.
Proof.
  destruct Hwf as [[H0 H1] Hlen].
  destruct Write_cases as [[Hc ->]|[Hc ->]]; unfold pending, stream_write; simpl.
  - rewrite Nat2Z.id.
    pose proof (store_take (buffer a) 0 x) as Hst.
    change (Z.to_nat 0) with 0%nat in Hst. rewrite Nat.add_0_l in Hst.
    rewrite Hst by lia. by rewrite take_0.
  - replace (Z.to_nat (ptr a + Z.of_nat (length x)))
      with (Z.to_nat (ptr a) + length x)%nat by lia.
    rewrite store_take by (rewrite Hlen; lia). by rewrite app_assoc.
Qed.

End write.

Lemma FlushBuffer_wf a : wf a -> wf (FlushBuffer a).
Proof.
  intros [[H0 H1] Hlen]. unfold FlushBuffer.
  destruct (0 <? ptr a); [|done].
  unfold wf, ptr_ok, BUFFERSIZE; simpl. split; [lia|done].
Qed.

Lemma FlushBuffer_pending a : wf a -> pending (FlushBuffer a) = pending a.
Proof.
  intros [[H0 H1] Hlen]. unfold FlushBuffer.
  destruct (Z.ltb_spec 0 (ptr a)); [|done].
  unfold pending, stream_write; simpl. by rewrite take_0, app_nil_r.
Qed.

Lemma FlushBuffer_fout a : wf a -> fout (FlushBuffer a) = pending a.
Proof.
  intros [[H0 H1] Hlen]. unfold FlushBuffer, pending.
  destruct (Z.ltb_spec 0 (ptr a)); [done|].
  replace (ptr a) with 0 by lia. by rewrite take_0, app_nil_r.
Qed.

Lemma FlushBuffer_ptr a : wf a -> ptr (FlushBuffer a) = 0.
Proof.
  intros [[H0 H1] Hlen]. unfold FlushBuffer.
  destruct (Z.ltb_spec 0 (ptr a)); simpl; [done|lia].
Qed.

Lemma repr_size x : Z.of_nat (length (repr x)) <= BUFFERSIZE.
Proof. rewrite NativeFacts.repr_length. unfold BUFFERSIZE. destruct x; simpl; lia. Qed.

Lemma write_prim_wf a x : wf a -> wf (write_prim a x).
Proof. intros H. apply Write_wf; [done|apply repr_size]. Qed.

Lemma write_prim_pending a x : wf a -> pending (write_prim a x) = pending a ++ repr x.
Proof. intros H. apply Write_pending; [done|apply repr_size]. Qed.

(** Appending to [fout] while the buffer is empty. *)
Lemma pending_flushed a : ptr a = 0 -> pending a = fout a.
Proof. intros H. unfold pending. by rewrite H, take_0, app_nil_r. Qed.

Lemma write_string_spec a s :
  wf a -> wf (write_string a s) /\
          pending (write_string a s) = Unbuffered.write_string (pending a) s.
Proof.
  intros Hwf. unfold write_string, Unbuffered.write_string, Unbuffered.write_prim.
  set (len := to_signed 32 (Z.of_nat (String.length s))).
  pose proof (write_prim_wf a (PInt len) Hwf) as Hwf1.
  pose proof (FlushBuffer_wf _ Hwf1) as Hwf2.
  pose proof (FlushBuffer_ptr _ Hwf1) as Hp.
  pose proof (FlushBuffer_fout _ Hwf1) as Hf.
  rewrite write_prim_pending in Hf by done.
  destruct (Z.eqb_spec len 0) as [H0|Hn].
  - split; [done|]. rewrite pending_flushed, Hf by done.
    rewrite H0. simpl. by rewrite take_0, app_nil_r.
  - split.
    + destruct Hwf2 as [Hpo Hl]. split; [exact Hpo|exact Hl].
    + rewrite pending_flushed by done. simpl. unfold stream_write. by rewrite Hf.
Qed.

Lemma write_cstr_spec a s :
  wf a -> wf (write_cstr a s) /\
          pending (write_cstr a s) = Unbuffered.write_cstr (pending a) s.
Proof.
  intros Hwf. unfold write_cstr, Unbuffered.write_cstr, Unbuffered.write_prim.
  set (len := match s with
              | Some s0 => to_signed 64 (Z.of_nat (String.length s0))
              | None => -1
              end).
  pose proof (write_prim_wf a (PLong len) Hwf) as Hwf1.
  pose proof (FlushBuffer_wf _ Hwf1) as Hwf2.
  pose proof (FlushBuffer_ptr _ Hwf1) as Hp.
  pose proof (FlushBuffer_fout _ Hwf1) as Hf.
  rewrite write_prim_pending in Hf by done.
  destruct (Z.ltb_spec 0 len) as [Hpos|Hle].
  - split.
    + destruct Hwf2 as [Hpo Hl]. split; [exact Hpo|exact Hl].
    + rewrite pending_flushed by done. simpl. unfold stream_write. rewrite Hf.
      destruct s as [s0|]; [done|]. subst len. lia.
  - split; [done|]. rewrite pending_flushed, Hf by done.
    destruct s as [s0|]; [|done]. fold len.
    replace (Z.to_nat len) with 0%nat by lia. by rewrite take_0, app_nil_r.
Qed.

Lemma step_spec a o :
  wf a -> wf (step a o) /\ pending (step a o) = Unbuffered.step (pending a) o.
Proof.
  intros Hwf. destruct o as [x|s|s|]; simpl.
  - split; [by apply write_prim_wf|by apply write_prim_pending].
  - by apply write_string_spec.
  - by apply write_cstr_spec.
  - split; [by apply FlushBuffer_wf|by apply FlushBuffer_pending].
Qed.

Lemma run_spec ops : forall a,
  wf a -> wf (run ops a) /\ pending (run ops a) = Unbuffered.run ops (pending a).
Proof.
  induction ops as [|o ops IH]; intros a Hwf; [done|].
  destruct (step_spec a o Hwf) as [Hwf' Hp].
  destruct (IH _ Hwf') as [Hwf'' Hp''].
  change (run (o :: ops) a) with (run ops (step a o)).
  change (Unbuffered.run (o :: ops) (pending a))
    with (Unbuffered.run ops (Unbuffered.step (pending a) o)).
  split; [done|]. by rewrite Hp'', Hp.
Qed.

Lemma unbuffered_step_app out o :
  Unbuffered.step out o = out ++ Unbuffered.step [] o.
Proof.
  destruct o as [x|s|[s|]|]; simpl;
    unfold Unbuffered.write_string, Unbuffered.write_cstr, Unbuffered.write_prim;
    simpl; rewrite ?app_nil_r, <- ?app_assoc; reflexivity.
Qed.

Lemma unbuffered_run_app ops : forall out,
  Unbuffered.run ops out = out ++ Unbuffered.run ops [].
Proof.
  induction ops as [|o ops IH]; intros out.
  - simpl. by rewrite app_nil_r.
  - change (Unbuffered.run (o :: ops) out)
      with (Unbuffered.run ops (Unbuffered.step out o)).
    change (Unbuffered.run (o :: ops) [])
      with (Unbuffered.run ops (Unbuffered.step [] o)).
    rewrite IH, (IH (Unbuffered.step [] o)), (unbuffered_step_app out o).
    by rewrite app_assoc.
Qed.

Lemma unbuffered_run_cat ops1 ops2 out :
  Unbuffered.run (ops1 ++ ops2) out
  = Unbuffered.run ops1 out ++ Unbuffered.run ops2 [].
Proof.
  unfold Unbuffered.run. rewrite fold_left_app.
  apply unbuffered_run_app.
Qed.

Lemma unbuffered_run_bytes ops : forall out,
  Unbuffered.run ops out = out ++ concat (map Unbuffered.bytes_of ops).
Proof.
  induction ops as [|o ops IH]; intros out.
  - simpl. by rewrite app_nil_r.
  - change (Unbuffered.run (o :: ops) out)
      with (Unbuffered.run ops (Unbuffered.step out o)).
    rewrite IH, (unbuffered_step_app out o). simpl. by rewrite <- app_assoc.
Qed.

Lemma destroy_run ops out : destroy (run ops (init out)) = Unbuffered.run ops out.
Proof.
  destruct (run_spec ops (init out) (wf_init out)) as [Hwf Hp].
  unfold destroy. rewrite FlushBuffer_fout by done. rewrite Hp.
  by rewrite pending_flushed.
Qed.

(** C5. What has reached the stream once the destructor has run is what
    the unbuffered writer puts there, and that is the concatenation, in
    the order of the calls, of the byte images of the primitives and of
    the length-prefixed string payloads: no byte is dropped, repeated
    or moved, whatever the sequence of writes and flushes. *)
Theorem buffered_writer_refines_unbuffered (ops : list op) (out : list ascii) :
  destroy (run ops (init out)) = Unbuffered.run ops out /\
  destroy (run ops (init out)) = out ++ concat (map Unbuffered.bytes_of ops).
Proof.
  split; [apply destroy_run|]. rewrite destroy_run. apply unbuffered_run_bytes.
Qed.

(** C8. The offset [ptr] stays within [0 .. BUFFERSIZE]: it does after
    construction, and every [Write<T>] with [sizeof(T) <= 1024] and every
    [FlushBuffer] keeps it there; such a write stores its bytes inside
    the buffer. *)
Theorem ptr_invariant :
  (forall out, ptr_ok (init out)) /\
  (forall a x, ptr_ok a -> Z.of_nat (length x) <= 1024 ->
     ptr_ok (Write a x) /\
     0 <= Write_offset a x /\
     Write_offset a x + Z.of_nat (length x) <= BUFFERSIZE) /\
  (forall a, ptr_ok a -> ptr_ok (FlushBuffer a)).
Proof.
  split; [|split].
  - intros out. by destruct (wf_init out).
  - intros a x [H0 H1] Hx. unfold Write, Write_offset, ptr_ok, BUFFERSIZE in *.
    rewrite (to_size_t_small (1024 - Z.of_nat (length x)))
      by (unfold BUFFERSIZE; lia).
    destruct (Z.ltb_spec (1024 - Z.of_nat (length x)) (ptr a)); simpl.
    + lia.
    + rewrite to_size_t_small by (unfold BUFFERSIZE; lia). lia.
  - intros a [H0 H1]. unfold FlushBuffer, ptr_ok, BUFFERSIZE in *.
    destruct (0 <? ptr a); simpl; lia.
Qed.

(** The invariant at work: a buffer filled up to offset 1022 receives
    an [int]. *)
Lemma ptr_invariant_witness :
  let a := {| buffer := replicate 1024 zero; ptr := 1022; fout := [] |} in
  ptr_ok a /\ ptr_ok (Write a (repr (PInt 7))) /\
  Write_offset a (repr (PInt 7)) = 0.
Proof.
  intros a.
  assert (Ha : ptr_ok a) by (unfold ptr_ok, BUFFERSIZE; simpl; lia).
  split; [exact Ha|]. split; [|reflexivity].
  apply (proj1 (proj2 ptr_invariant) a (repr (PInt 7)) Ha). simpl. lia.
Defined.

End BinaryOutFacts.

(** * The version header through the binary encoder *)

Module VersionFacts.
Import Native BinaryOut.

Local Arguments le_value : simpl never.
Local Arguments le_bytes : simpl never.
Local Arguments to_signed : simpl never.

Lemma to_signed_small w z : 0 < w -> 0 <= z < 2 ^ (w - 1) -> to_signed w z = z.
Proof.
  intros Hw Hz. unfold to_signed.
  assert (2 ^ w = 2 * 2 ^ (w - 1)) as Hp.
  { replace w with (1 + (w - 1)) at 1 by lia. rewrite Z.pow_add_r by lia. done. }
  assert (0 < 2 ^ (w - 1)) by (apply Z.pow_pos_nonneg; lia).
  rewrite Z.mod_small by lia.
  destruct (Z.ltb_spec z (2 ^ (w - 1))); lia.
Qed.

Lemma to_signed_mod w z : to_signed w (z mod 2 ^ w) = to_signed w z.
Proof. unfold to_signed. by rewrite Zmod_mod. Qed.

Lemma run_cat ops1 ops2 a : run (ops1 ++ ops2) a = run ops2 (run ops1 a).
Proof. unfold run. apply fold_left_app. Qed.

Section reader.
Context {VersionInfo : Type}.
Variable default_VersionInfo : VersionInfo.
Variable to_string : VersionInfo -> string.
Variable of_string : string -> VersionInfo.

Lemma stream_read_app bs rest :
  BinaryIn.stream_read (length bs) (bs ++ rest) = Some (bs, rest).
Proof.
  unfold BinaryIn.stream_read.
  destruct (Nat.ltb_spec (length (bs ++ rest)) (length bs)) as [Hlt|_].
  - rewrite length_app in Hlt. lia.
  - by rewrite take_app_length, drop_app_length.
Qed.

Lemma Read_int_repr z rest :
  BinaryIn.Read_int (repr (PInt z) ++ rest) = Some (to_signed 32 z, rest).
Proof.
  unfold BinaryIn.Read_int.
  pose proof (stream_read_app (repr (PInt z)) rest) as H.
  rewrite NativeFacts.repr_length in H. simpl sizeof in H.
  rewrite H. simpl.
  rewrite NativeFacts.le_value_bytes.
  change (8 * Z.of_nat 4) with 32. by rewrite to_signed_mod.
Qed.

Lemma Read_size_t_repr z rest :
  0 <= z < 2 ^ 64 ->
  BinaryIn.Read_size_t (repr (PSizeT z) ++ rest) = Some (z, rest).
Proof.
  intros Hz. unfold BinaryIn.Read_size_t.
  pose proof (stream_read_app (repr (PSizeT z)) rest) as H.
  rewrite NativeFacts.repr_length in H. simpl sizeof in H.
  rewrite H. simpl.
  rewrite NativeFacts.le_value_bytes.
  change (8 * Z.of_nat 8) with 64. by rewrite Z.mod_small.
Qed.

Lemma length_list_ascii_of_string s :
  length (list_ascii_of_string s) = String.length s.
Proof. induction s as [|c s IH]; simpl; [done|]. by rewrite IH. Qed.

Lemma read_string_written s rest :
  Z.of_nat (String.length s) < 2 ^ 31 ->
  BinaryIn.read_string (Unbuffered.write_string [] s ++ rest) = Some (s, rest).
Proof.
  intros Hlen. unfold BinaryIn.read_string, Unbuffered.write_string, Unbuffered.write_prim.
  rewrite (to_signed_small 32) by (change (32 - 1) with 31; lia).
  rewrite app_nil_l, <- app_assoc, Read_int_repr. simpl.
  rewrite (to_signed_small 32) by (change (32 - 1) with 31; lia).
  destruct (Z.ltb_spec (Z.of_nat (String.length s)) 0) as [?|_]; [lia|].
  rewrite Nat2Z.id.
  rewrite take_ge by (rewrite length_list_ascii_of_string; lia).
  destruct (Z.eqb_spec (Z.of_nat (String.length s)) 0) as [H0|Hn].
  - destruct s; [done|]. simpl in H0. lia.
  - rewrite <- length_list_ascii_of_string, stream_read_app. simpl.
    by rewrite string_of_list_ascii_of_string.
Qed.

Local Abbreviation entry_ok := (BinaryIn.entry_ok to_string of_string).
Local Abbreviation entry_ops := (BinaryIn.entry_ops to_string).

Lemma read_entries_written table : forall m rest,
  Forall entry_ok table ->
  BinaryIn.read_entries of_string (length table) m
    (Unbuffered.run (flat_map entry_ops table) [] ++ rest)
  = Some (fold_left (fun m e => <[fst e := snd e]> m) table m, rest).
Proof.
  induction table as [|[k v] table IH]; intros m rest Hok; [done|].
  apply Forall_cons in Hok as [(Hk & Hv & Hrt) Hok]. simpl in Hk, Hv, Hrt.
  change (flat_map entry_ops ((k, v) :: table))
    with ([OpString k; OpString (to_string v)] ++ flat_map entry_ops table).
  rewrite BinaryOutFacts.unbuffered_run_cat.
  change (Unbuffered.run [OpString k; OpString (to_string v)] [])
    with (Unbuffered.step (Unbuffered.write_string [] k) (OpString (to_string v))).
  rewrite (BinaryOutFacts.unbuffered_step_app _ (OpString (to_string v))).
  change (Unbuffered.step [] (OpString (to_string v)))
    with (Unbuffered.write_string [] (to_string v)).
  rewrite <- !app_assoc.
  cbn [BinaryIn.read_entries length].
  rewrite read_string_written by done. cbn [mbind option_bind].
  unfold BinaryIn.read_version. rewrite read_string_written by done.
  cbn [mbind option_bind]. rewrite Hrt. by apply IH.
Qed.

Lemma fold_insert_lookup (table : list (string * VersionInfo)) :
  forall (m : gmap string VersionInfo) L v,
  NoDup (fst <$> table) -> (L, v) ∈ table ->
  fold_left (fun m e => <[fst e := snd e]> m) table m !! L = Some v.
Proof.
  assert (Hnotin : forall (tb : list (string * VersionInfo))
                          (m : gmap string VersionInfo) L,
             L ∉ (fst <$> tb) ->
             fold_left (fun m e => <[fst e := snd e]> m) tb m !! L = m !! L).
  { induction tb as [|[k w] tb IHt]; intros m L Hn; [done|].
    rewrite fmap_cons in Hn. apply not_elem_of_cons in Hn as [Hne Hn].
    simpl in Hne. simpl. rewrite IHt by done. by apply lookup_insert_ne. }
  induction table as [|[k w] table IH]; intros m L v Hnd Hin.
  - by apply elem_of_nil in Hin.
  - rewrite fmap_cons in Hnd. apply NoDup_cons in Hnd as [Hk Hnd]. simpl in Hk. simpl.
    apply elem_of_cons in Hin as [Heq|Hin].
    + injection Heq as -> ->. rewrite Hnotin by done. apply lookup_insert_eq.
    + by apply IH.
Qed.

(** C7. Every library the writer's table held when the output archive
    was constructed is answered by [GetVersion] of the input archive
    with the writer's version; the header is read by the constructor
    and what it leaves in the stream is the user's payload. *)
Theorem reader_sees_writer_versions
    (table : list (string * VersionInfo)) (ops : list op) (L : string) (v : VersionInfo) :
  NoDup (fst <$> table) ->
  Z.of_nat (length table) < 2 ^ 64 ->
  Forall entry_ok table ->
  (L, v) ∈ table ->
  exists a,
    BinaryIn.create of_string
      (destroy (run ops (BinaryIn.create_out to_string table []))) = Some a /\
    BinaryIn.fin a = Unbuffered.run ops [] /\
    fst (BinaryIn.GetVersion default_VersionInfo a L) = v.
Proof.
  intros Hnd Hsz Hok Hin.
  unfold BinaryIn.create_out. rewrite <- run_cat.
  rewrite BinaryOutFacts.destroy_run.
  rewrite BinaryOutFacts.unbuffered_run_cat.
  unfold BinaryIn.header_ops.
  change (Unbuffered.run (?o :: ?l) []) with (Unbuffered.run l (Unbuffered.step [] o)).
  rewrite BinaryOutFacts.unbuffered_run_app. simpl Unbuffered.step.
  unfold Unbuffered.write_prim. rewrite app_nil_l, <- !app_assoc.
  unfold BinaryIn.create, BinaryIn.read_map.
  unfold to_size_t. rewrite (Z.mod_small (Z.of_nat (length table))) by lia.
  rewrite Read_size_t_repr by lia. simpl. rewrite Nat2Z.id.
  pose proof (read_entries_written table ∅ (Unbuffered.run ops []) Hok) as Hre.
  rewrite Hre. simpl.
  eexists. split; [done|]. split; [done|].
  unfold BinaryIn.GetVersion, map_index. simpl.
  by rewrite (fold_insert_lookup table ∅ L v Hnd Hin).
Qed.

End reader.

(** A table of two libraries whose versions are kept as their strings,
    followed by a user payload of one [int]. *)
Lemma reader_sees_writer_versions_witness :
  let table := [("netgen", "v6.2"); ("ngsolve", "v6.2.1")]%string in
  exists a,
    BinaryIn.create id
      (destroy (run [OpPrim (PInt 5)] (BinaryIn.create_out id table []))) = Some a /\
    BinaryIn.fin a = Unbuffered.run [OpPrim (PInt 5)] [] /\
    fst (BinaryIn.GetVersion EmptyString a "ngsolve") = "v6.2.1"%string.
Proof.
  intros table.
  apply (reader_sees_writer_versions EmptyString id id table).
  - apply (bool_decide_unpack _). vm_compute. exact I.
  - simpl. lia.
  - unfold table. repeat constructor; simpl; lia.
  - unfold table. set_solver.
Defined.

End VersionFacts.

(** * Reading booleans from text and asking for versions *)

Module InputFacts.

Section input.
Context {VersionInfo : Type}.
Variable default_VersionInfo : VersionInfo.

(** C9. Reading a [bool] from a [TextInArchive] whose stream holds a
    character after the white space takes exactly that character, leaves
    the stream in a good state, and yields [true] exactly when the
    character is ['t']: any other character gives [false], and none is
    rejected. *)
Theorem text_read_bool (c0 : ascii) (a : @TextIn.t VersionInfo) (c : ascii) (rest : list ascii) :
  TextIn.failed (TextIn.fin a) = false ->
  TextIn.skipws (TextIn.input (TextIn.fin a)) = c :: rest ->
  TextIn.read_bool c0 a
  = (bool_decide (c = "t"%char), TextIn.mk (TextIn.vinfo a) (TextIn.mkis rest false)).
Proof.
  intros Hgood Hskip. unfold TextIn.read_bool, TextIn.extract_char.
  rewrite Hgood, Hskip. simpl. f_equal.
  destruct (Ascii.eqb_spec c "t");
    [by rewrite bool_decide_true|by rewrite bool_decide_false].
Qed.

(** C10. [GetVersion] with a library name the header did not list
    returns a default-constructed [VersionInfo] and leaves it in the
    archive's map under that name; so do both input archives. *)
Theorem GetVersion_absent (library : string)
    (b : @BinaryIn.t VersionInfo) (a : @TextIn.t VersionInfo) :
  BinaryIn.vinfo b !! library = None ->
  TextIn.vinfo a !! library = None ->
  BinaryIn.GetVersion default_VersionInfo b library
  = (default_VersionInfo,
     BinaryIn.mk (<[library := default_VersionInfo]> (BinaryIn.vinfo b)) (BinaryIn.fin b)) /\
  TextIn.GetVersion default_VersionInfo a library
  = (default_VersionInfo,
     TextIn.mk (<[library := default_VersionInfo]> (TextIn.vinfo a)) (TextIn.fin a)).
Proof.
  intros Hb Ha. unfold BinaryIn.GetVersion, TextIn.GetVersion, map_index.
  by rewrite Hb, Ha.
Qed.

End input.

(** The stream [" \nx"] read as a boolean: the character taken is ['x']
    and the value read is [false]. *)
Lemma text_read_bool_witness :
  let a := TextIn.mk (∅ : gmap string string) (TextIn.mkis [" "; "010"; "x"; "t"]%char false) in
  TextIn.read_bool "t" a
  = (false, TextIn.mk ∅ (TextIn.mkis ["t"%char] false)).
Proof.
  intros a.
  exact (text_read_bool "t"%char a "x"%char ["t"%char] eq_refl eq_refl).
Defined.

(** Asking archives that hold only ["netgen"] for ["ngsolve"]. *)
Lemma GetVersion_absent_witness :
  let m : gmap string string := {[ "netgen"%string := "v6.2"%string ]} in
  fst (BinaryIn.GetVersion EmptyString (BinaryIn.mk m []) "ngsolve") = EmptyString /\
  fst (TextIn.GetVersion EmptyString (TextIn.mk m (TextIn.mkis [] false)) "ngsolve")
  = EmptyString.
Proof.
  intros m.
  assert (Hm : m !! "ngsolve"%string = None) by (vm_compute; reflexivity).
  destruct (GetVersion_absent EmptyString "ngsolve" (BinaryIn.mk m [])
              (TextIn.mk m (TextIn.mkis [] false)) Hm Hm) as [-> ->].
  split; reflexivity.
Defined.

End InputFacts.

(** * The reference protocol, one reference at a time *)

Module ProtocolFacts.
Import Archive Graph.

(** ** Induction on members, through the elements of vectors *)

Section value_induction.
Variable P : value -> Prop.
Hypothesis HInt : forall i, P (VInt i).
Hypothesis HBool : forall b, P (VBool b).
Hypothesis HString : forall s, P (VString s).
Hypothesis HShared : forall T p, P (VShared T p).
Hypothesis HRaw : forall T p, P (VRaw T p).
Hypothesis HVec : forall d l, P d -> Forall P l -> P (VVec d l).

Fixpoint value_ind (v : value) : P v :=
  match v with
  | VInt i => HInt i
  | VBool b => HBool b
  | VString s => HString s
  | VShared T p => HShared T p
  | VRaw T p => HRaw T p
  | VVec d l =>
      HVec d l (value_ind d)
        ((fix all (l : list value) : Forall P l :=
            match l with
            | [] => @List.Forall_nil _ P
            | x :: r => @List.Forall_cons _ P x r (value_ind x) (all r)
            end) l)
  end.

End value_induction.

Lemma value_rel_vec (f : gmap nat nat) d l e l' :
  Graph.value_rel f (VVec d l) (VVec e l') <->
  Graph.same_kind d e = true /\ Forall2 (Graph.value_rel f) l l'.
Proof.
  simpl. split; intros [H1 H2]; (split; [done|]).
  - revert l' H2. induction l as [|x r IH]; intros [|y r'] H2; try done.
    destruct H2 as [Hx Hr]. constructor; [done|by apply IH].
  - induction H2 as [|x y r r' Hx _ IH]; [done|]. by split.
Qed.



Lemma same_kind_trans v : forall w u,
  Graph.same_kind v w = true -> Graph.same_kind w u = true ->
  Graph.same_kind v u = true.
Proof.
  induction v as [i|b|s|T p|T p|d l IHd _] using value_ind;
    intros [] [] H1 H2; simpl in *; try done.
  - apply String.eqb_eq in H1 as ->. done.
  - apply String.eqb_eq in H1 as ->. done.
  - by eapply IHd.
Qed.

Lemma bind_ok {A B : Type} (r : result A) (k : A -> result B) (a : A) :
  r = Ok a -> (r ≫= k) = k a.
Proof. by intros ->. Qed.

Lemma put_int_out i a : Output a = true -> put_int i a = Ok (emit (TokInt i) a).
Proof. intros H. unfold put_int, xfer_int. by rewrite H. Qed.

Lemma put_bool_out b a : Output a = true -> put_bool b a = Ok (emit (TokBool b) a).
Proof. intros H. unfold put_bool, xfer_bool. by rewrite H. Qed.

Lemma put_string_out s a : Output a = true -> put_string s a = Ok (emit (TokString s) a).
Proof. intros H. unfold put_string, xfer_string. by rewrite H. Qed.

Lemma xfer_int_out i a : Output a = true -> xfer_int i a = Ok (i, emit (TokInt i) a).
Proof. intros H. unfold xfer_int. by rewrite H. Qed.

Lemma xfer_size_out n a : Output a = true -> xfer_size n a = Ok (n, emit (TokSize n) a).
Proof. intros H. unfold xfer_size. by rewrite H. Qed.

Lemma xfer_size_in i j s a :
  Output a = false -> stream a = TokSize j :: s -> xfer_size i a = Ok (j, set_stream s a).
Proof. intros H Hs. unfold xfer_size. by rewrite H, Hs. Qed.

Lemma xfer_bool_out b a : Output a = true -> xfer_bool b a = Ok (b, emit (TokBool b) a).
Proof. intros H. unfold xfer_bool. by rewrite H. Qed.

Lemma xfer_string_out s a : Output a = true -> xfer_string s a = Ok (s, emit (TokString s) a).
Proof. intros H. unfold xfer_string. by rewrite H. Qed.

Lemma xfer_int_in i j s a :
  Output a = false -> stream a = TokInt j :: s -> xfer_int i a = Ok (j, set_stream s a).
Proof. intros H Hs. unfold xfer_int. by rewrite H, Hs. Qed.

Lemma xfer_bool_in b c s a :
  Output a = false -> stream a = TokBool c :: s -> xfer_bool b a = Ok (c, set_stream s a).
Proof. intros H Hs. unfold xfer_bool. by rewrite H, Hs. Qed.

Lemma xfer_string_in r c s a :
  Output a = false -> stream a = TokString c :: s ->
  xfer_string r a = Ok (c, set_stream s a).
Proof. intros H Hs. unfold xfer_string. by rewrite H, Hs. Qed.

Lemma set_stream_set_stream s s' a : set_stream s (set_stream s' a) = set_stream s a.
Proof. done. Qed.

Lemma emit_emit_stream k a : stream (emit k a) = stream a ++ [k].
Proof. done. Qed.

Lemma vector_at_lookup (v : list ptr) nr p :
  0 <= nr -> v !! Z.to_nat nr = Some p -> vector_at v nr = Ok p.
Proof.
  intros Hnr Hv. unfold vector_at.
  destruct (Z.ltb_spec nr 0); [lia|]. by rewrite Hv.
Qed.

Lemma string_eqb_refl' (s : string) : String.eqb s s = true.
Proof. apply String.eqb_refl. Qed.

Lemma string_eqb_ne (s r : string) : s <> r -> String.eqb s r = false.
Proof. intros H. by apply String.eqb_neq. Qed.

(** One primitive write of an output archive. *)
Ltac out_step H :=
  match goal with
  | |- context [put_int ?i ?a ≫= _] => rewrite (bind_ok _ _ _ (put_int_out i a H))
  | |- context [put_bool ?i ?a ≫= _] => rewrite (bind_ok _ _ _ (put_bool_out i a H))
  | |- context [put_string ?i ?a ≫= _] => rewrite (bind_ok _ _ _ (put_string_out i a H))
  | |- context [xfer_int ?i ?a ≫= _] => rewrite (bind_ok _ _ _ (xfer_int_out i a H))
  | |- context [xfer_size ?i ?a ≫= _] => rewrite (bind_ok _ _ _ (xfer_size_out i a H))
  | |- context [xfer_bool ?i ?a ≫= _] => rewrite (bind_ok _ _ _ (xfer_bool_out i a H))
  | |- context [xfer_string ?i ?a ≫= _] => rewrite (bind_ok _ _ _ (xfer_string_out i a H))
  end.

(** One primitive read of an input archive whose stream shows its head. *)
Ltac in_step H :=
  match goal with
  | |- context [xfer_int ?i ?a ≫= _] =>
      rewrite (bind_ok _ _ _ (xfer_int_in i _ _ a H eq_refl))
  | |- context [xfer_size ?i ?a ≫= _] =>
      rewrite (bind_ok _ _ _ (xfer_size_in i _ _ a H eq_refl))
  | |- context [xfer_bool ?i ?a ≫= _] =>
      rewrite (bind_ok _ _ _ (xfer_bool_in i _ _ a H eq_refl))
  | |- context [xfer_string ?i ?a ≫= _] =>
      rewrite (bind_ok _ _ _ (xfer_string_in i _ _ a H eq_refl))
  end.

Section protocol.
Variable default_fields : type_info -> option (list value).
Variable IsRegistered : type_info -> bool.
Variable GetArchiveRegister : type_info -> result ClassArchiveInfo.

Local Abbreviation xfer_raw := (Archive.xfer_raw default_fields IsRegistered GetArchiveRegister).
Local Abbreviation xfer_shared := (Archive.xfer_shared IsRegistered GetArchiveRegister).
Local Abbreviation normalized := (Graph.normalized IsRegistered GetArchiveRegister).

(** The key computed by the writer of a raw reference. *)
Lemma normalized_raw T D p reg :
  normalized T D p reg ->
  (if negb (String.eqb T D) then
     if negb (IsRegistered D) then Err UnregisteredPolymorphic
     else info ← GetArchiveRegister D; downcaster info T p
   else Ok p) = Ok reg.
Proof.
  intros [[-> ->]|(Hne & Hreg & info & Hget & Hdown)].
  - by rewrite String.eqb_refl.
  - rewrite string_eqb_ne, Hreg by done. simpl. by rewrite Hget.
Qed.

(** The key and the flag computed by the writer of a shared reference. *)
Lemma normalized_shared T D p reg :
  normalized T D p reg ->
  (if negb (String.eqb T D) then
     if negb (IsRegistered D) then Err UnregisteredPolymorphic
     else info ← GetArchiveRegister D;
          r ← downcaster info T p;
          Ok (r, negb (bool_decide (r = p)))
   else Ok (p, false)) = Ok (reg, negb (bool_decide (reg = p))).
Proof.
  intros [[-> ->]|(Hne & Hreg & info & Hget & Hdown)].
  - rewrite String.eqb_refl. simpl. by rewrite bool_decide_true.
  - rewrite string_eqb_ne, Hreg by done. simpl. rewrite Hget. simpl. by rewrite Hdown.
Qed.

(** *** Writing a reference *)

Section writer.
Variables (T : type_info) (pa : addr) (D : type_info) (reg : ptr) (a : t).
Hypothesis Hout : Output a = true.
Hypothesis Hty : typeid_at (mem a) pa = Ok D.
Hypothesis Hnorm : normalized T D (Some pa) reg.

Let flag := negb (bool_decide (reg = Some pa)).

Lemma xfer_shared_hit_out nr raw :
  shared_ptr2nr a !! reg = Some nr ->
  xfer_shared raw T (Some pa) a
  = Ok (Some pa, set_stream (stream a ++ TokInt nr :: after_shared_id flag D) a).
Proof.
  intros Hnr. unfold Archive.xfer_shared. rewrite Hout.
  rewrite (bind_ok _ _ _ Hty).
  rewrite (bind_ok _ _ _ (normalized_shared _ _ _ _ Hnorm)).
  rewrite Hnr. fold flag. do 2 out_step Hout.
  destruct flag; simpl.
  - out_step Hout. unfold emit, set_stream; simpl. by rewrite <- !app_assoc.
  - unfold emit, set_stream; simpl. by rewrite <- !app_assoc.
Qed.

Lemma xfer_raw_hit_out nr body :
  ptr2nr a !! reg = Some nr ->
  xfer_raw body T (Some pa) a
  = Ok (Some pa, set_stream (stream a ++ TokInt nr :: after_raw_id flag D) a).
Proof.
  intros Hnr. unfold Archive.xfer_raw. rewrite Hout.
  rewrite (bind_ok _ _ _ Hty).
  rewrite (bind_ok _ _ _ (normalized_raw _ _ _ _ Hnorm)).
  rewrite Hnr. fold flag. do 3 out_step Hout.
  unfold emit, set_stream; simpl. by rewrite <- !app_assoc.
Qed.

Lemma xfer_raw_miss_out body :
  ptr2nr a !! reg = None ->
  (T = D -> is_Some (default_fields T)) ->
  xfer_raw body T (Some pa) a
  = (a3 ← body pa (set_stream (stream a ++ new_raw_sentinel T D) (register_ptr reg a));
     Ok (Some pa, a3)).
Proof.
  intros Hmiss Hcons. unfold Archive.xfer_raw. rewrite Hout.
  rewrite (bind_ok _ _ _ Hty).
  rewrite (bind_ok _ _ _ (normalized_raw _ _ _ _ Hnorm)).
  rewrite Hmiss. unfold new_raw_sentinel.
  destruct (String.eqb_spec D T) as [->|Hne].
  - unfold is_constructible. rewrite bool_decide_true by auto.
    out_step Hout. done.
  - destruct Hnorm as [[-> _]|(_ & Hreg & _)]; [done|].
    rewrite Hreg. simpl negb. cbv iota.
    do 2 out_step Hout.
    unfold emit, set_stream; simpl. by rewrite <- !app_assoc.
Qed.

Lemma xfer_shared_miss_out raw :
  shared_ptr2nr a !! reg = None ->
  xfer_shared raw T (Some pa) a
  = ('(_, a3) ← raw T (Some pa) (set_stream (stream a ++ [TokInt (-1); TokBool flag]) a);
     a4 ← (if flag then put_string D a3 else Ok a3);
     Ok (Some pa, register_shared reg a4)).
Proof.
  intros Hmiss. unfold Archive.xfer_shared. rewrite Hout.
  rewrite (bind_ok _ _ _ Hty).
  rewrite (bind_ok _ _ _ (normalized_shared _ _ _ _ Hnorm)).
  rewrite Hmiss. fold flag. do 2 out_step Hout.
  unfold emit, set_stream; simpl. by rewrite <- !app_assoc.
Qed.

End writer.

Lemma xfer_shared_null_out T a raw :
  Output a = true ->
  xfer_shared raw T None a = Ok (None, emit (TokInt (-2)) a).
Proof. intros Hout. unfold Archive.xfer_shared. rewrite Hout. by out_step Hout. Qed.

Lemma xfer_raw_null_out T a body :
  Output a = true ->
  xfer_raw body T None a = Ok (None, emit (TokInt (-2)) a).
Proof. intros Hout. unfold Archive.xfer_raw. rewrite Hout. by out_step Hout. Qed.

(** *** Reading a reference *)

Section reader.
Variables (T : type_info) (dst : ptr) (r : t).
Hypothesis Hin : Output r = false.

Lemma xfer_shared_null_in rest raw :
  stream r = TokInt (-2) :: rest ->
  xfer_shared raw T dst r = Ok (None, set_stream rest r).
Proof.
  intros Hs. unfold Archive.xfer_shared. rewrite Hin.
  by rewrite (bind_ok _ _ _ (xfer_int_in 0 _ _ r Hin Hs)).
Qed.

Lemma xfer_raw_null_in rest body :
  stream r = TokInt (-2) :: rest ->
  xfer_raw body T dst r = Ok (None, set_stream rest r).
Proof.
  intros Hs. unfold Archive.xfer_raw. rewrite Hin.
  by rewrite (bind_ok _ _ _ (xfer_int_in 0 _ _ r Hin Hs)).
Qed.

Lemma xfer_shared_hit_in nr flag D rest other q raw :
  0 <= nr ->
  stream r = TokInt nr :: after_shared_id flag D ++ rest ->
  nr2shared_ptr r !! Z.to_nat nr = Some other ->
  (if flag then exists info, GetArchiveRegister D = Ok info /\
                            upcaster info T other = Ok q
   else q = other) ->
  xfer_shared raw T dst r = Ok (q, set_stream rest r).
Proof.
  intros Hnn Hs Hother Hq.
  unfold Archive.xfer_shared. rewrite Hin.
  rewrite (bind_ok _ _ _ (xfer_int_in 0 nr _ r Hin Hs)).
  destruct (Z.eqb_spec nr (-2)); [lia|].
  destruct (Z.eqb_spec nr (-1)); [lia|].
  change (nr2shared_ptr (set_stream ?s r)) with (nr2shared_ptr r).
  rewrite (bind_ok _ _ _ (vector_at_lookup _ _ _ Hnn Hother)).
  unfold after_shared_id in *. destruct flag; simpl.
  - destruct Hq as (info & Hget & Hup). do 2 in_step Hin.
    rewrite Hget. simpl. by rewrite Hup.
  - in_step Hin. by subst q.
Qed.

Lemma xfer_raw_hit_in nr flag D rest stored q body :
  0 <= nr ->
  stream r = TokInt nr :: after_raw_id flag D ++ rest ->
  nr2ptr r !! Z.to_nat nr = Some stored ->
  (if flag then exists info, GetArchiveRegister D = Ok info /\
                            upcaster info T stored = Ok q
   else q = stored) ->
  xfer_raw body T dst r = Ok (q, set_stream rest r).
Proof.
  intros Hnn Hs Hst Hq.
  unfold Archive.xfer_raw. rewrite Hin.
  rewrite (bind_ok _ _ _ (xfer_int_in 0 nr _ r Hin Hs)).
  destruct (Z.eqb_spec nr (-2)); [lia|].
  destruct (Z.eqb_spec nr (-1)); [lia|].
  destruct (Z.eqb_spec nr (-3)); [lia|].
  unfold after_raw_id in *. simpl app. do 2 in_step Hin.
  change (nr2ptr (set_stream ?s r)) with (nr2ptr r).
  destruct flag.
  - destruct Hq as (info & Hget & Hup).
    rewrite (bind_ok _ _ _ Hget).
    rewrite (bind_ok _ _ _ (vector_at_lookup _ _ _ Hnn Hst)).
    by rewrite (bind_ok _ _ _ Hup).
  - rewrite (bind_ok _ _ _ (vector_at_lookup _ _ _ Hnn Hst)). by subst q.
Qed.

(** Sentinel [-1]: a new object of the static type. *)
Lemma xfer_raw_new_in rest fs body :
  stream r = TokInt (-1) :: rest ->
  default_fields T = Some fs ->
  xfer_raw body T dst r
  = (let pa := (next_block (mem r), 0%nat) in
     a3 ← body pa (push_ptr (Some pa)
                     (set_mem (snd (alloc T fs (mem r))) (set_stream rest r)));
     Ok (Some pa, a3)).
Proof.
  intros Hs Hfs. unfold Archive.xfer_raw. rewrite Hin.
  rewrite (bind_ok _ _ _ (xfer_int_in 0 _ _ r Hin Hs)).
  simpl. unfold constructIfPossible. simpl. by rewrite Hfs.
Qed.

(** Sentinel [-3]: a new object of the type named on the stream. *)
Lemma xfer_raw_poly_in D rest info pa m' reg body :
  stream r = TokInt (-3) :: TokString D :: rest ->
  GetArchiveRegister D = Ok info ->
  creator info T (mem r) = Ok (Some pa, m') ->
  downcaster info T (Some pa) = Ok reg ->
  xfer_raw body T dst r
  = (a4 ← body pa (push_ptr reg (set_mem m' (set_stream rest r)));
     Ok (Some pa, a4)).
Proof.
  intros Hs Hget Hcr Hdown. unfold Archive.xfer_raw. rewrite Hin.
  rewrite (bind_ok _ _ _ (xfer_int_in 0 _ _ r Hin Hs)).
  cbn [Z.eqb Pos.eqb]. in_step Hin.
  rewrite (bind_ok _ _ _ Hget).
  change (mem (set_stream ?s r)) with (mem r).
  rewrite (bind_ok _ _ _ Hcr). by rewrite (bind_ok _ _ _ Hdown).
Qed.

(** Sentinel [-1] of a shared reference. *)
Lemma xfer_shared_new_in flag rest raw :
  stream r = TokInt (-1) :: TokBool flag :: rest ->
  xfer_shared raw T dst r
  = ('(p', a3) ← raw T None (set_stream rest r);
     if flag then
       '(nm, a4) ← xfer_string EmptyString a3;
       info ← GetArchiveRegister nm;
       reg ← downcaster info T p';
       Ok (p', push_shared reg a4)
     else Ok (p', push_shared p' a3)).
Proof.
  intros Hs. unfold Archive.xfer_shared. rewrite Hin.
  rewrite (bind_ok _ _ _ (xfer_int_in 0 _ _ r Hin Hs)).
  cbn [Z.eqb Pos.eqb]. by in_step Hin.
Qed.

End reader.

(** C2, as the code has it. For a referent found in the identity table
    under the ID [nr], the writer of a shared reference emits [nr], the
    flag and, only when the flag is true, the name of the dynamic type;
    the writer of a raw reference emits [nr], the flag and the name,
    whatever the flag. Neither touches the tables nor archives the
    referent again (the result does not depend on the transfer of the
    body), and the readers take exactly these tokens off the stream. *)
Theorem back_reference_shape (T : type_info) (pa : addr) (D : type_info) (reg : ptr)
    (nr : Z) (a : t) :
  Output a = true ->
  typeid_at (mem a) pa = Ok D ->
  normalized T D (Some pa) reg ->
  let flag := negb (bool_decide (reg = Some pa)) in
  (shared_ptr2nr a !! reg = Some nr ->
   forall raw, xfer_shared raw T (Some pa) a
     = Ok (Some pa, set_stream (stream a ++ TokInt nr :: after_shared_id flag D) a)) /\
  (ptr2nr a !! reg = Some nr ->
   forall body, xfer_raw body T (Some pa) a
     = Ok (Some pa, set_stream (stream a ++ TokInt nr :: after_raw_id flag D) a)) /\
  (forall r rest other q dst raw,
     Output r = false -> 0 <= nr ->
     stream r = TokInt nr :: after_shared_id flag D ++ rest ->
     nr2shared_ptr r !! Z.to_nat nr = Some other ->
     (if flag then exists info, GetArchiveRegister D = Ok info /\
                               upcaster info T other = Ok q
      else q = other) ->
     xfer_shared raw T dst r = Ok (q, set_stream rest r)) /\
  (forall r rest stored q dst body,
     Output r = false -> 0 <= nr ->
     stream r = TokInt nr :: after_raw_id flag D ++ rest ->
     nr2ptr r !! Z.to_nat nr = Some stored ->
     (if flag then exists info, GetArchiveRegister D = Ok info /\
                               upcaster info T stored = Ok q
      else q = stored) ->
     xfer_raw body T dst r = Ok (q, set_stream rest r)).
Proof.
  intros Hout Hty Hnorm flag. repeat split.
  - intros Hnr raw. by apply xfer_shared_hit_out.
  - intros Hnr body. by apply xfer_raw_hit_out.
  - intros r rest other q dst raw Hin Hnn Hs Hother Hq.
    by eapply xfer_shared_hit_in.
  - intros r rest stored q dst body Hin Hnn Hs Hst Hq.
    by eapply xfer_raw_hit_in.
Qed.

(** C4, as the code has it. A raw reference whose key is not in the
    table is given the next ID and entered in the table first; the
    sentinel and the referent follow, so the body is archived by an
    archive that knows the referent. A shared reference whose key is
    not in its table emits the sentinel and the flag and archives the
    raw reference inside with the shared table as it was; the key is
    entered, under the count reached by then, after the referent (and
    the name, if the flag is set) has been emitted. *)
Theorem registration_order (T : type_info) (pa : addr) (D : type_info) (reg : ptr) (a : t) :
  Output a = true ->
  typeid_at (mem a) pa = Ok D ->
  normalized T D (Some pa) reg ->
  (T = D -> is_Some (default_fields T)) ->
  let flag := negb (bool_decide (reg = Some pa)) in
  (ptr2nr a !! reg = None ->
   exists a2,
     ptr2nr a2 !! reg = Some (ptr_count a) /\
     ptr_count a2 = ptr_count a + 1 /\
     stream a2 = stream a ++ new_raw_sentinel T D /\
     forall body, xfer_raw body T (Some pa) a
                  = (a3 ← body pa a2; Ok (Some pa, a3))) /\
  (shared_ptr2nr a !! reg = None ->
   exists a2,
     shared_ptr2nr a2 = shared_ptr2nr a /\
     shared_ptr_count a2 = shared_ptr_count a /\
     stream a2 = stream a ++ [TokInt (-1); TokBool flag] /\
     forall raw, xfer_shared raw T (Some pa) a
                 = ('(_, a3) ← raw T (Some pa) a2;
                    a4 ← (if flag then put_string D a3 else Ok a3);
                    Ok (Some pa, register_shared reg a4))).
Proof.
  intros Hout Hty Hnorm Hcons flag. split.
  - intros Hmiss.
    exists (set_stream (stream a ++ new_raw_sentinel T D) (register_ptr reg a)).
    split; [apply lookup_insert_eq|]. split; [done|]. split; [done|].
    intros body. by apply xfer_raw_miss_out.
  - intros Hmiss.
    exists (set_stream (stream a ++ [TokInt (-1); TokBool flag]) a).
    split; [done|]. split; [done|]. split; [done|].
    intros raw. by apply xfer_shared_miss_out.
Qed.

End protocol.

Local Open Scope string_scope.

(** A [Base2] reference to the first [Derived] of [Example.two_derived],
    which both tables already hold under the ID 0: the shared writer
    names the type because the flag is set. *)
Lemma back_reference_shape_witness :
  let a := register_shared (Some (0, 0)%nat)
             (register_ptr (Some (0, 0)%nat) (create true [] Example.two_derived)) in
  Archive.archive_shared Example.default_fields Example.IsRegistered
    Example.GetArchiveRegister 1 "Base2" (Some (0, 1)%nat) a
  = Ok (Some (0, 1)%nat,
        set_stream [TokInt 0; TokBool true; TokString "Derived"] a).
Proof.
  intros a.
  assert (Hn : Graph.normalized Example.IsRegistered Example.GetArchiveRegister
                 "Base2" "Derived" (Some (0, 1)%nat) (Some (0, 0)%nat)).
  { right. split; [done|]. split; [reflexivity|].
    exists (Example.info_of "Derived"). split; reflexivity. }
  exact (proj1 (back_reference_shape Example.default_fields Example.IsRegistered
                  Example.GetArchiveRegister "Base2" (0, 1)%nat "Derived"
                  (Some (0, 0)%nat) 0 a eq_refl eq_refl Hn) eq_refl _).
Defined.

(** The claim fails for raw references: the second reference of
    [Example.pair_of_node] is a back-reference whose flag is false, and
    the name of the type still follows the flag. *)
Lemma raw_back_reference_names_type :
  Archive.save Example.default_fields Example.nothing_registered Example.empty_register
    3 Example.pair_of_node (VRaw "Pair" (Some (1, 0)%nat))
  = Ok ([TokInt (-1); TokInt (-1); TokInt 3; TokInt (-2)]
          ++ TokInt 1 :: after_raw_id false "Node")%list /\
  after_raw_id false "Node" <> after_shared_id false "Node".
Proof. split; [vm_compute; reflexivity|discriminate]. Qed.

(** A list node that is its own successor, met for the first time. *)
Lemma registration_order_witness :
  let a := create true [] Example.self_loop in
  (exists a2,
     ptr2nr a2 !! Some (0, 0)%nat = Some 0 /\
     stream a2 = [TokInt (-1)] /\
     forall body,
       Archive.xfer_raw Example.default_fields Example.nothing_registered
         Example.empty_register body "Node" (Some (0, 0)%nat) a
       = (a3 ← body (0, 0)%nat a2; Ok (Some (0, 0)%nat, a3))) /\
  (exists a2,
     shared_ptr2nr a2 = ∅ /\
     stream a2 = [TokInt (-1); TokBool false] /\
     forall raw,
       Archive.xfer_shared Example.nothing_registered Example.empty_register
         raw "Node" (Some (0, 0)%nat) a
       = ('(_, a3) ← raw "Node" (Some (0, 0)%nat) a2;
          Ok (Some (0, 0)%nat, register_shared (Some (0, 0)%nat) a3))).
Proof.
  intros a.
  assert (Hn : Graph.normalized Example.nothing_registered Example.empty_register
                 "Node" "Node" (Some (0, 0)%nat) (Some (0, 0)%nat)) by (by left).
  destruct (registration_order Example.default_fields Example.nothing_registered
              Example.empty_register "Node" (0, 0)%nat "Node" (Some (0, 0)%nat) a
              eq_refl eq_refl Hn (fun _ => ltac:(by eexists))) as [Hraw Hshared].
  split.
  - destruct (Hraw eq_refl) as (a2 & H1 & _ & H3 & H4). by exists a2.
  - destruct (Hshared eq_refl) as (a2 & H1 & _ & H3 & H4). exists a2.
    split; [done|]. split; [done|]. intros raw. rewrite H4. done.
Defined.

(** The claim fails for shared references: while the body of the
    self-referential node is emitted, the shared reference to the node
    itself does not find it in the shared table and is emitted with the
    sentinel [-1] again; the node ends up with two shared IDs. *)
Lemma shared_reference_registered_after_body :
  exists a,
    Archive.archive_shared Example.default_fields Example.nothing_registered
      Example.empty_register 2 "Node" (Some (0, 0)%nat)
      (create true [] Example.self_loop) = Ok (Some (0, 0)%nat, a) /\
    stream a = [TokInt (-1); TokBool false; TokInt (-1); TokInt 7;
                TokInt (-1); TokBool false;
                TokInt 0; TokBool false; TokString "Node"] /\
    shared_ptr_count a = 2 /\
    shared_ptr2nr a !! Some (0, 0)%nat = Some 1.
Proof. eexists. split; [vm_compute; reflexivity|]. by vm_compute. Qed.

End ProtocolFacts.

(** * Saving and loading object graphs *)

Module GraphFacts.
Import Archive Graph ProtocolFacts.

(** ** Renamings *)

Lemma ptr_rel_mono (f f' : gmap nat nat) p q :
  f ⊆ f' -> ptr_rel f p q -> ptr_rel f' p q.
Proof.
  intros Hsub. destruct p as [[b o]|], q as [[b' o']|]; simpl; try done.
  intros [Hf ->]. split; [|done]. by eapply lookup_weaken.
Qed.

Lemma value_rel_mono (f f' : gmap nat nat) v : forall w,
  f ⊆ f' -> value_rel f v w -> value_rel f' v w.
Proof.
  induction v as [i|b|s|T p|T p|d l _ IHl] using value_ind;
    intros w Hsub; destruct w as [| | |U q|U q|e l']; try done.
  - simpl. intros [-> H]. split; [done|]. by eapply ptr_rel_mono.
  - simpl. intros [-> H]. split; [done|]. by eapply ptr_rel_mono.
  - rewrite !value_rel_vec. intros [Hk Hl]. split; [done|].
    revert IHl. induction Hl as [|x y r r' Hxy _ IH]; intros IHl; [constructor|].
    apply Forall_cons in IHl as [Hx Hr]. constructor; [by apply Hx|by apply IH].
Qed.

Lemma object_rel_mono (f f' : gmap nat nat) o o' :
  f ⊆ f' -> object_rel f o o' -> object_rel f' o o'.
Proof.
  intros Hsub [Hd Hf]. split; [done|].
  eapply Forall2_impl; [exact Hf|]. intros v w. by apply value_rel_mono.
Qed.

Lemma drop_cons_inv {A : Type} (l : list A) i x r :
  drop i l = x :: r -> l !! i = Some x /\ drop (S i) l = r.
Proof.
  revert l. induction i as [|i IH]; intros [|y l] H; simpl in *; try done.
  - by injection H as -> ->.
  - by apply IH.
Qed.

(** ** Frames *)

Lemma frame_refl x R : frame_except x R R.
Proof. split; [lia|done]. Qed.

Lemma frame_trans x R1 R2 R3 :
  frame_except x R1 R2 -> frame_except x R2 R3 -> frame_except x R1 R3.
Proof.
  intros [Hn1 H1] [Hn2 H2]. split; [lia|].
  intros b' Hb Hx. rewrite H2 by (done || lia). by apply H1.
Qed.

Lemma frame_weaken x R R' : frame_except None R R' -> frame_except x R R'.
Proof. intros [Hn H]. split; [done|]. intros b' Hb _. by apply H. Qed.

Lemma frame_set_stream x s s' R R' :
  frame_except x R R' -> frame_except x (set_stream s R) (set_stream s' R').
Proof. done. Qed.

Lemma frame_stream x s R : frame_except x R (set_stream s R).
Proof. split; [simpl; lia|done]. Qed.

(** ** The invariant does not look at the streams *)

Lemma sim_streams m f P W R s s' :
  sim m f P W R -> sim m f P (set_stream s W) (set_stream s' R).
Proof. intros []. by constructor. Qed.

Lemma sim_emit m f P W R k s' :
  sim m f P W R -> sim m f P (emit k W) (set_stream s' R).
Proof. apply sim_streams. Qed.

Lemma writer_of_emit m W k : writer_of m W -> writer_of m (emit k W).
Proof. done. Qed.

Lemma grows_refl W : grows W W.
Proof. by intros key. Qed.

Lemma grows_trans W1 W2 W3 : grows W1 W2 -> grows W2 W3 -> grows W1 W3.
Proof. intros H1 H2 key Hk. by apply H2, H1. Qed.

Lemma covers_grows m U W W' : grows W W' -> covers m U W -> covers m U W'.
Proof. intros Hg Hc b Hb HU. by apply Hg, Hc. Qed.

Lemma covers_weaken m (U U' : gset nat) W : U ⊆ U' -> covers m U W -> covers m U' W.
Proof. intros Hsub Hc b Hb HU. apply Hc; [done|set_solver]. Qed.

(** ** Primitive members *)

Section prims.
Variable m : memory.

Lemma contract_int (i : Z) W :
  writer_of m W ->
  contract m (fun _ => eq) (xfer_int i) xfer_int (fun _ => True) i W.
Proof.
  intros [Hout Hm]. exists (emit (TokInt i) W), [TokInt i].
  split; [by apply xfer_int_out|]. split; [done|]. split; [done|].
  split; [by intros key|].
  intros f P R rest j _ Hsim Hs. exists f, (set_stream rest R), i.
  split; [by apply xfer_int_in; [apply Hsim|]|].
  split; [done|]. split; [done|]. split; [done|].
  split; [by apply sim_emit|apply frame_stream].
Qed.

Lemma contract_size (i : Z) W :
  writer_of m W ->
  contract m (fun _ => eq) (xfer_size i) xfer_size (fun _ => True) i W.
Proof.
  intros [Hout Hm]. exists (emit (TokSize i) W), [TokSize i].
  split; [by apply xfer_size_out|]. split; [done|]. split; [done|].
  split; [by intros key|].
  intros f P R rest j _ Hsim Hs. exists f, (set_stream rest R), i.
  split; [by apply xfer_size_in; [apply Hsim|]|].
  split; [done|]. split; [done|]. split; [done|].
  split; [by apply sim_emit|apply frame_stream].
Qed.

Lemma contract_bool (i : bool) W :
  writer_of m W ->
  contract m (fun _ => eq) (xfer_bool i) xfer_bool (fun _ => True) i W.
Proof.
  intros [Hout Hm]. exists (emit (TokBool i) W), [TokBool i].
  split; [by apply xfer_bool_out|]. split; [done|]. split; [done|].
  split; [by intros key|].
  intros f P R rest j _ Hsim Hs. exists f, (set_stream rest R), i.
  split; [by apply xfer_bool_in; [apply Hsim|]|].
  split; [done|]. split; [done|]. split; [done|].
  split; [by apply sim_emit|apply frame_stream].
Qed.

Lemma contract_string (i : string) W :
  writer_of m W ->
  contract m (fun _ => eq) (xfer_string i) xfer_string (fun _ => True) i W.
Proof.
  intros [Hout Hm]. exists (emit (TokString i) W), [TokString i].
  split; [by apply xfer_string_out|]. split; [done|]. split; [done|].
  split; [by intros key|].
  intros f P R rest j _ Hsim Hs. exists f, (set_stream rest R), i.
  split; [by apply xfer_string_in; [apply Hsim|]|].
  split; [done|]. split; [done|]. split; [done|].
  split; [by apply sim_emit|apply frame_stream].
Qed.

End prims.

(** ** Steps of the invariant *)

Section invariant.
Variable m : memory.

(** The writer enters the object [b] in the raw table while the reader
    allocates its image [b']: the renaming is extended and [b] joins
    the objects in progress. *)
Lemma sim_register_ptr f P W R b b' ob :
  sim m f P W R ->
  ptr2nr W !! Some (b, 0%nat) = None ->
  b' = next_block (mem R) ->
  f !! b = None /\
  sim m (<[b := b']> f) (P ∪ {[b]})
      (register_ptr (Some (b, 0%nat)) W)
      (push_ptr (Some (b', 0%nat))
         (set_mem (mkmem (<[b' := ob]> (objs (mem R))) (S b')) R)).
Proof.
  intros Hsim Hmiss ->.
  assert (Hfb : f !! b = None).
  { destruct (f !! b) as [x|] eqn:E; [|done].
    destruct (s_dom _ _ _ _ _ Hsim b) as [n Hn]; [by eexists|]. congruence. }
  split; [done|].
  assert (Hsub : f ⊆ <[b := next_block (mem R)]> f) by (by apply insert_subseteq).
  constructor; simpl.
  - apply Hsim.
  - intros key n Hkey. destruct (decide (key = Some (b, 0%nat))) as [->|Hne].
    + rewrite lookup_insert_eq in Hkey. injection Hkey as <-.
      exists b, (next_block (mem R)). split; [done|].
      split; [apply lookup_insert_eq|]. rewrite (s_count _ _ _ _ _ Hsim).
      split; [lia|]. rewrite Nat2Z.id. by rewrite lookup_app_r, Nat.sub_diag.
    + rewrite lookup_insert_ne in Hkey by done.
      destruct (s_raw _ _ _ _ _ Hsim key n Hkey) as (b0 & b0' & -> & Hf & Hn & Hl).
      exists b0, b0'. split; [done|]. split; [by eapply lookup_weaken|].
      split; [done|]. rewrite lookup_app_l; [done|]. by eapply lookup_lt_Some.
  - intros key n Hkey.
    destruct (s_shared _ _ _ _ _ Hsim key n Hkey) as (b0 & b0' & -> & Hf & Hn & Hl).
    exists b0, b0'. split; [done|]. split; [by eapply lookup_weaken|]. done.
  - rewrite (s_count _ _ _ _ _ Hsim), length_app. simpl. lia.
  - apply Hsim.
  - intros b0 Hb0. destruct (decide (b0 = b)) as [->|Hne].
    + rewrite lookup_insert_eq. by eexists.
    + rewrite lookup_insert_ne in Hb0 by done.
      rewrite lookup_insert_ne by congruence. by apply (s_dom _ _ _ _ _ Hsim).
  - intros b1 b2 x H1 H2.
    destruct (decide (b1 = b)) as [->|Hn1], (decide (b2 = b)) as [->|Hn2]; [done| | |].
    + rewrite lookup_insert_eq in H1. injection H1 as <-.
      rewrite lookup_insert_ne in H2 by done.
      pose proof (s_range _ _ _ _ _ Hsim _ _ H2). lia.
    + rewrite lookup_insert_eq in H2. injection H2 as <-.
      rewrite lookup_insert_ne in H1 by done.
      pose proof (s_range _ _ _ _ _ Hsim _ _ H1). lia.
    + rewrite lookup_insert_ne in H1, H2 by done.
      by eapply (s_inj _ _ _ _ _ Hsim).
  - intros b0 b0' Hb0. destruct (decide (b0 = b)) as [->|Hne].
    + rewrite lookup_insert_eq in Hb0. injection Hb0 as <-. lia.
    + rewrite lookup_insert_ne in Hb0 by done.
      pose proof (s_range _ _ _ _ _ Hsim _ _ Hb0). lia.
  - intros b0' Hb0'. rewrite lookup_insert_ne by lia.
    apply (s_fresh _ _ _ _ _ Hsim). lia.
  - intros b0 b0' Hb0 HP.
    assert (b0 ≠ b) as Hne by set_solver.
    rewrite lookup_insert_ne in Hb0 by done.
    destruct (s_done _ _ _ _ _ Hsim b0 b0' Hb0) as (o & o' & Ho & Ho' & Hrel);
      [set_solver|].
    exists o, o'. split; [done|]. split.
    + pose proof (s_range _ _ _ _ _ Hsim _ _ Hb0).
      rewrite lookup_insert_ne by lia. done.
    + by eapply object_rel_mono.
Qed.

(** The writer enters a key in the shared table and the reader pushes
    the image of its object. *)
Lemma sim_register_shared f P W R b b' :
  sim m f P W R ->
  f !! b = Some b' ->
  sim m f P (register_shared (Some (b, 0%nat)) W) (push_shared (Some (b', 0%nat)) R).
Proof.
  intros Hsim Hb. constructor; simpl; try apply Hsim.
  - intros key n Hkey. destruct (decide (key = Some (b, 0%nat))) as [->|Hne].
    + rewrite lookup_insert_eq in Hkey. injection Hkey as <-.
      exists b, b'. split; [done|]. split; [done|].
      rewrite (s_shared_count _ _ _ _ _ Hsim).
      split; [lia|]. rewrite Nat2Z.id. by rewrite lookup_app_r, Nat.sub_diag.
    + rewrite lookup_insert_ne in Hkey by done.
      destruct (s_shared _ _ _ _ _ Hsim key n Hkey) as (b0 & b0' & -> & Hf & Hn & Hl).
      exists b0, b0'. split; [done|]. split; [done|].
      split; [done|]. rewrite lookup_app_l; [done|]. by eapply lookup_lt_Some.
  - rewrite (s_shared_count _ _ _ _ _ Hsim), length_app. simpl. lia.
Qed.

(** The reader stores a member of an object in progress. *)
Lemma sim_set_field f P W R b b' i v :
  sim m f P W R ->
  f !! b = Some b' -> b ∈ P ->
  sim m f P W (set_mem (set_field b' i v (mem R)) R).
Proof.
  intros Hsim Hb HP. unfold set_field.
  destruct (objs (mem R) !! b') as [o|] eqn:Ho.
  2:{ destruct Hsim. by constructor. }
  constructor; simpl; try apply Hsim.
  - intros b0' Hb0'. pose proof (s_range _ _ _ _ _ Hsim _ _ Hb).
    rewrite lookup_insert_ne by lia. by apply (s_fresh _ _ _ _ _ Hsim).
  - intros b0 b0' Hb0 HP0.
    destruct (s_done _ _ _ _ _ Hsim b0 b0' Hb0 HP0) as (o0 & o0' & H1 & H2 & H3).
    exists o0, o0'. split; [done|]. split; [|done].
    rewrite lookup_insert_ne; [done|]. intros ->.
    assert (b = b0) by (by eapply (s_inj _ _ _ _ _ Hsim)). set_solver.
Qed.

(** All the members of [b] have been read: it is no longer in
    progress. *)
Lemma sim_complete f P W R b b' o o' :
  sim m f (P ∪ {[b]}) W R ->
  f !! b = Some b' ->
  objs m !! b = Some o -> objs (mem R) !! b' = Some o' -> object_rel f o o' ->
  sim m f P W R.
Proof.
  intros Hsim Hb Ho Ho' Hrel. destruct Hsim. constructor; try done.
  intros b0 b0' Hb0 HP. destruct (decide (b0 = b)) as [->|Hne].
  - assert (b0' = b') as -> by congruence. by exists o, o'.
  - apply s_done0; [done|].
    intros [H|H]%elem_of_union; [done|].
    by apply elem_of_singleton in H.
Qed.

End invariant.

(** ** One transfer on both sides *)

Section roundtrip.
Variable default_fields : type_info -> option (list value).
Variable IsRegistered : type_info -> bool.
Variable GetArchiveRegister : type_info -> result ClassArchiveInfo.
Variable layout : type_info -> type_info -> option nat.
Hypothesis Hregistry : registry_sound default_fields IsRegistered GetArchiveRegister layout.
Variable m : memory.
Hypothesis Hwf : wf_mem default_fields IsRegistered layout m.

Local Abbreviation wf_ptr := (Graph.wf_ptr default_fields IsRegistered layout m).
Local Abbreviation wf_value := (Graph.wf_value default_fields IsRegistered layout m).
Local Abbreviation wf_object := (Graph.wf_object default_fields IsRegistered layout m).
Local Abbreviation normalized := (Graph.normalized IsRegistered GetArchiveRegister).
Local Abbreviation xfer_raw :=
  (Archive.xfer_raw default_fields IsRegistered GetArchiveRegister).
Local Abbreviation xfer_shared := (Archive.xfer_shared IsRegistered GetArchiveRegister).
Local Abbreviation xfer_value := (Archive.xfer_value IsRegistered GetArchiveRegister).
Local Abbreviation xfer_member := (Archive.xfer_member IsRegistered GetArchiveRegister).
Local Abbreviation xfer_members := (Archive.xfer_members IsRegistered GetArchiveRegister).
Local Abbreviation DoArchive := (Archive.DoArchive IsRegistered GetArchiveRegister).
Local Abbreviation archive_raw :=
  (Archive.archive_raw default_fields IsRegistered GetArchiveRegister).
Local Abbreviation archive_shared :=
  (Archive.archive_shared default_fields IsRegistered GetArchiveRegister).
Local Abbreviation archive_value :=
  (Archive.archive_value default_fields IsRegistered GetArchiveRegister).

(** What well-formedness says of a reference that is not null. *)
Lemma wf_ptr_inv T b o :
  wf_ptr T (Some (b, o)) = true ->
  exists ob fs,
    objs m !! b = Some ob /\ default_fields (dyn_type ob) = Some fs /\
    ((T = dyn_type ob /\ o = 0%nat) \/
     (T <> dyn_type ob /\ IsRegistered (dyn_type ob) = true /\
      layout (dyn_type ob) T = Some o)).
Proof.
  unfold Graph.wf_ptr. destruct (objs m !! b) as [ob|]; [|done].
  intros H. apply andb_prop in H as [Hc H].
  apply bool_decide_eq_true in Hc as [fs Hfs].
  exists ob, fs. split; [done|]. split; [done|].
  destruct (String.eqb_spec T (dyn_type ob)) as [->|Hne].
  - left. split; [done|]. by apply bool_decide_eq_true in H.
  - right. apply andb_prop in H as [Hr Hl].
    split; [done|]. split; [done|]. by apply bool_decide_eq_true in Hl.
Qed.

Lemma wf_object_inv b ob :
  objs m !! b = Some ob ->
  Forall (fun v => wf_value v = true) (fields ob) /\
  exists fs, default_fields (dyn_type ob) = Some fs /\ same_shape (fields ob) fs = true.
Proof.
  intros Hb. pose proof (map_Forall_lookup_1 _ _ _ _ Hwf Hb) as H.
  unfold Graph.wf_object in H. apply andb_prop in H as [Hf Hs]. split.
  - apply Forall_forall. intros v Hv.
    rewrite forallb_forall in Hf. apply Hf. by apply list_elem_of_In.
  - destruct (default_fields (dyn_type ob)) as [fs|]; [|done]. by exists fs.
Qed.

(** The key of a well-formed reference is the address of the complete
    object. *)
Lemma wf_normalized T b o ob :
  wf_ptr T (Some (b, o)) = true -> objs m !! b = Some ob ->
  normalized T (dyn_type ob) (Some (b, o)) (Some (b, 0%nat)).
Proof.
  intros Hwfp Hb. destruct (wf_ptr_inv _ _ _ Hwfp) as (ob' & fs & Hb' & Hfs & Hcase).
  assert (ob' = ob) as -> by congruence.
  destruct Hcase as [[-> ->]|(Hne & Hr & Hl)]; [by left|].
  right. split; [done|]. split; [done|].
  destruct (Hregistry _ Hr) as (info & Hget & Hcasts).
  exists info. split; [done|]. by apply (Hcasts T o Hl).
Qed.

Lemma same_shape_length vs ws : same_shape vs ws = true -> length vs = length ws.
Proof.
  revert ws. induction vs as [|v vs IH]; intros [|w ws]; simpl; try done.
  intros H. apply andb_prop in H as [_ H]. by rewrite (IH _ H).
Qed.

Lemma typeid_at_writer W b o ob :
  writer_of m W -> objs m !! b = Some ob ->
  typeid_at (mem W) (b, o) = Ok (dyn_type ob).
Proof. intros [_ ->] Hb. unfold typeid_at. simpl. by rewrite Hb. Qed.

(** The flag of a well-formed reference tells whether its offset is
    not zero, and then the reference goes through a registered base. *)
Lemma flag_true T b o ob :
  wf_ptr T (Some (b, o)) = true -> objs m !! b = Some ob ->
  negb (bool_decide (Some (b, 0%nat) = Some (b, o))) = true ->
  exists info,
    GetArchiveRegister (dyn_type ob) = Ok info /\
    (forall b', upcaster info T (Some (b', 0%nat)) = Ok (Some (b', o))) /\
    (forall b', downcaster info T (Some (b', o)) = Ok (Some (b', 0%nat))).
Proof.
  intros Hwfp Hb Hflag.
  destruct (wf_ptr_inv _ _ _ Hwfp) as (ob' & fs & Hb' & Hfs & Hcase).
  assert (ob' = ob) as -> by congruence.
  destruct Hcase as [[-> ->]|(Hne & Hr & Hl)].
  - by rewrite bool_decide_true in Hflag.
  - destruct (Hregistry _ Hr) as (info & Hget & Hcasts).
    exists info. split; [done|]. destruct (Hcasts T o Hl) as (H1 & H2 & _). by split.
Qed.

Lemma flag_false (b o : nat) :
  negb (bool_decide (Some (b, 0%nat) = Some (b, o))) = false -> o = 0%nat.
Proof.
  intros H. apply negb_false_iff, bool_decide_eq_true in H. congruence.
Qed.

Section step.
Variable fuel : nat.
Hypothesis IHraw : forall U W T p,
  writer_of m W -> covers m U W -> (size U < fuel)%nat -> wf_ptr T p = true ->
  contract m ptr_rel (archive_raw fuel T p) (archive_raw fuel T) (fun _ => True) p W.

Lemma shared_ok U W T p :
  writer_of m W -> covers m U W -> (size U < fuel)%nat -> wf_ptr T p = true ->
  contract m ptr_rel (archive_shared fuel T p) (archive_shared fuel T) (fun _ => True) p W.
Proof.
  intros HW Hcov Hfuel Hwfp. unfold Archive.archive_shared.
  destruct p as [[b o]|].
  2:{ exists (emit (TokInt (-2)) W), [TokInt (-2)].
      split; [apply xfer_shared_null_out, HW|]. do 2 (split; [done|]).
      split; [by intros key|].
      intros f P R rest dst _ Hsim Hs. exists f, (set_stream rest R), None.
      split; [by apply xfer_shared_null_in; [apply Hsim|]|].
      do 3 (split; [done|]). split; [by apply sim_emit|apply frame_stream]. }
  destruct (wf_ptr_inv _ _ _ Hwfp) as (ob & fs & Hb & Hfs & Hcase).
  pose proof (typeid_at_writer W b o ob HW Hb) as Hty.
  pose proof (wf_normalized _ _ _ _ Hwfp Hb) as Hnorm.
  destruct HW as [Hout Hmem].
  set (D := dyn_type ob) in *.
  set (flag := negb (bool_decide (Some (b, 0%nat) = Some (b, o)))).
  destruct (shared_ptr2nr W !! Some (b, 0%nat)) as [nr|] eqn:Hlook.
  - (* a back-reference *)
    eexists _, (TokInt nr :: after_shared_id flag D).
    split; [by apply (xfer_shared_hit_out _ _ _ _ _ _ _ Hout Hty Hnorm)|].
    do 2 (split; [done|]). split; [by intros key|].
    intros f P R rest dst _ Hsim Hs.
    destruct (s_shared _ _ _ _ _ Hsim _ _ Hlook) as (b0 & b' & Heq & Hf & Hn & Hl).
    injection Heq as <-.
    exists f, (set_stream rest R), (Some (b', o)).
    split.
    { eapply xfer_shared_hit_in; [apply Hsim|exact Hn|exact Hs|exact Hl|].
      fold flag. destruct flag eqn:Hflag.
      - destruct (flag_true _ _ _ _ Hwfp Hb Hflag) as (info & Hget & Hup & _).
        by exists info.
      - by rewrite (flag_false _ _ Hflag). }
    do 2 (split; [done|]). split; [done|].
    split; [by apply sim_streams|apply frame_stream].
  - (* the referent is new to the shared table *)
    set (W2 := set_stream (stream W ++ [TokInt (-1); TokBool flag]) W).
    destruct (IHraw U W2 T (Some (b, o))) as (W3 & ts3 & HW3 & Hw3 & Hs3 & Hg3 & Hread3);
      [done|done|done|done|].
    set (tail := if flag then [TokString D] else []).
    set (W4 := if flag then emit (TokString D) W3 else W3).
    exists (register_shared (Some (b, 0%nat)) W4), ([TokInt (-1); TokBool flag] ++ ts3 ++ tail).
    destruct Hw3 as [Hout3 Hmem3].
    split.
    { rewrite (xfer_shared_miss_out _ _ _ _ _ _ _ Hout Hty Hnorm) by done.
      fold flag W2. rewrite HW3. simpl. subst W4. destruct flag; simpl.
      - by out_step Hout3.
      - done. }
    split; [by subst W4; destruct flag|].
    split.
    { subst W4 tail. destruct flag; simpl; rewrite Hs3; simpl;
        by rewrite <- ?app_assoc, ?app_nil_r. }
    split.
    { intros key Hkey. subst W4. destruct flag; simpl; by apply Hg3. }
    intros f P R rest dst _ Hsim Hs.
    simpl in Hs. rewrite <- app_assoc in Hs.
    destruct (Hread3 f P (set_stream (ts3 ++ tail ++ rest) R) (tail ++ rest) None)
      as (f' & R3 & p' & H1 & H2 & H3 & H4 & H5 & H6);
      [done|by apply sim_streams|done|].
    destruct p' as [[b' o']|]; [|done]. destruct H4 as [Hfb <-].
    rewrite (xfer_shared_new_in _ _ _ _ _ (s_in _ _ _ _ _ Hsim) _ _ _ Hs).
    rewrite H1. cbn [mbind result_bind bind].
    pose proof (s_in _ _ _ _ _ H5) as Hin3.
    subst W4 tail. destruct flag eqn:Hflag.
    + destruct (flag_true _ _ _ _ Hwfp Hb Hflag) as (info & Hget & _ & Hdown).
      exists f', (push_shared (Some (b', 0%nat)) (set_stream rest R3)), (Some (b', o)).
      split.
      { rewrite (bind_ok _ _ _ (xfer_string_in EmptyString D rest R3 Hin3 H2)).
        fold D in Hget. rewrite (bind_ok _ _ _ Hget).
        by rewrite (bind_ok _ _ _ (Hdown b')). }
      split; [done|]. split; [done|]. split; [done|].
      split; [apply sim_register_shared; [by apply sim_streams|done]|].
      destruct H6 as [Hn6 Hf6]. split; [exact Hn6|exact Hf6].
    + pose proof (flag_false _ _ Hflag) as ->.
      exists f', (push_shared (Some (b', 0%nat)) R3), (Some (b', 0%nat)).
      split; [done|]. split; [by rewrite app_nil_l in H2|].
      split; [done|]. split; [done|].
      split; [by apply sim_register_shared|].
      destruct H6 as [Hn6 Hf6]. split; [exact Hn6|exact Hf6].
Qed.

Lemma value_ok v : forall U W,
  writer_of m W -> covers m U W -> (size U < fuel)%nat -> wf_value v = true ->
  contract m value_rel (archive_value fuel v) (archive_value fuel)
           (fun dst => same_kind v dst = true) v W.
Proof.
  unfold Archive.archive_value.
  induction v as [i|i|i|T p|T p|d l _ IHl] using value_ind;
    intros U W HW Hcov Hfuel Hwfv.
  - destruct (contract_int m i W HW) as (W' & ts & H1 & H2 & H3 & H4 & Hread).
    exists W', ts. split; [by simpl; rewrite H1|]. do 3 (split; [done|]).
    intros f P R rest [j| | | | |] Hk Hsim Hs; try done.
    destruct (Hread f P R rest j I Hsim Hs) as (f' & R' & x' & G1 & G2 & G3 & G4 & G5).
    exists f', R', (VInt x'). simpl. by rewrite G1.
  - destruct (contract_bool m i W HW) as (W' & ts & H1 & H2 & H3 & H4 & Hread).
    exists W', ts. split; [by simpl; rewrite H1|]. do 3 (split; [done|]).
    intros f P R rest [|j| | | |] Hk Hsim Hs; try done.
    destruct (Hread f P R rest j I Hsim Hs) as (f' & R' & x' & G1 & G2 & G3 & G4 & G5).
    exists f', R', (VBool x'). simpl. by rewrite G1.
  - destruct (contract_string m i W HW) as (W' & ts & H1 & H2 & H3 & H4 & Hread).
    exists W', ts. split; [by simpl; rewrite H1|]. do 3 (split; [done|]).
    intros f P R rest [| |j| | |] Hk Hsim Hs; try done.
    destruct (Hread f P R rest j I Hsim Hs) as (f' & R' & x' & G1 & G2 & G3 & G4 & G5).
    exists f', R', (VString x'). simpl. by rewrite G1.
  - destruct (shared_ok U W T p HW Hcov Hfuel Hwfv)
      as (W' & ts & H1 & H2 & H3 & H4 & Hread).
    unfold Archive.archive_shared in H1.
    exists W', ts. split; [by simpl; rewrite H1|]. do 3 (split; [done|]).
    intros f P R rest [| | |T' q| |] Hk Hsim Hs; try done.
    apply String.eqb_eq in Hk as <-.
    destruct (Hread f P R rest q I Hsim Hs) as (f' & R' & x' & G1 & G2 & G3 & G4 & G5).
    unfold Archive.archive_shared in G1.
    exists f', R', (VShared T x'). simpl. by rewrite G1.
  - destruct (IHraw U W T p HW Hcov Hfuel Hwfv)
      as (W' & ts & H1 & H2 & H3 & H4 & Hread).
    exists W', ts. split; [by simpl; rewrite H1|]. do 3 (split; [done|]).
    intros f P R rest [| | | |T' q|] Hk Hsim Hs; try done.
    apply String.eqb_eq in Hk as <-.
    destruct (Hread f P R rest q I Hsim Hs) as (f' & R' & x' & G1 & G2 & G3 & G4 & G5).
    exists f', R', (VRaw T x'). simpl. by rewrite G1.
  - (* a vector: the size, then the elements in order *)
    assert (Hlist : forall l0,
      Forall (fun x => forall U W,
                writer_of m W -> covers m U W -> (size U < fuel)%nat ->
                wf_value x = true ->
                contract m value_rel (xfer_value (archive_raw fuel) x)
                  (xfer_value (archive_raw fuel))
                  (fun dst => same_kind x dst = true) x W) l0 ->
      forallb (fun e => wf_value e && same_kind e d) l0 = true ->
      forall W0, writer_of m W0 -> covers m U W0 ->
      exists W' ts,
        Do_write (xfer_value (archive_raw fuel)) l0 W0 = Ok W' /\
        writer_of m W' /\ stream W' = stream W0 ++ ts /\ grows W0 W' /\
        forall f P R rest e,
          same_kind d e = true -> sim m f P W0 R -> stream R = ts ++ rest ->
          exists f' R' l',
            Do_read (xfer_value (archive_raw fuel) e) (length l0) R = Ok (l', R') /\
            stream R' = rest /\ f ⊆ f' /\ Forall2 (value_rel f') l0 l' /\
            sim m f' P W' R' /\ frame_except None R R').
    { induction l0 as [|x r IHr]; intros HF Hwfl W0 HW0 Hcov0.
      - exists W0, []. split; [done|]. split; [done|].
        split; [by rewrite app_nil_r|]. split; [apply grows_refl|].
        intros f P R rest e He Hsim Hs. exists f, R, [].
        split; [done|]. split; [done|]. split; [done|]. split; [constructor|].
        split; [done|apply frame_refl].
      - apply Forall_cons in HF as [Hx HF].
        simpl in Hwfl. apply andb_prop in Hwfl as [Hwx Hwfl].
        apply andb_prop in Hwx as [Hwx Hkx].
        destruct (Hx U W0 HW0 Hcov0 Hfuel Hwx)
          as (W1 & ts1 & K1 & K2 & K3 & K4 & Kread).
        destruct (IHr HF Hwfl W1 K2 (covers_grows _ _ _ _ K4 Hcov0))
          as (W2 & ts2 & L1 & L2 & L3 & L4 & Lread).
        exists W2, (ts1 ++ ts2).
        split; [simpl; rewrite K1; exact L1|]. split; [done|].
        split; [by rewrite L3, K3, app_assoc|].
        split; [by eapply grows_trans|].
        intros f P R rest e He Hsim Hs. rewrite <- app_assoc in Hs.
        destruct (Kread f P R (ts2 ++ rest) e (same_kind_trans _ _ _ Hkx He) Hsim Hs)
          as (f1 & R1 & x' & G1 & G2 & G3 & G4 & G5 & G6).
        destruct (Lread f1 P R1 rest e He G5 G2)
          as (f2 & R2 & r' & M1 & M2 & M3 & M4 & M5 & M6).
        exists f2, R2, (x' :: r').
        split; [simpl; rewrite G1; simpl; by rewrite M1|].
        split; [done|]. split; [by etrans|].
        split; [constructor; [by eapply value_rel_mono|done]|].
        split; [done|by eapply frame_trans]. }
    destruct (contract_size m (Z.of_nat (length l)) W HW)
      as (W1 & ts1 & H1 & H2 & H3 & H4 & Hread1).
    destruct (Hlist l IHl Hwfv W1 H2 (covers_grows _ _ _ _ H4 Hcov))
      as (W2 & ts2 & L1 & L2 & L3 & L4 & Lread).
    exists W2, (ts1 ++ ts2).
    split.
    { cbn [Archive.xfer_value]. rewrite H1. cbn [mbind result_bind bind].
      rewrite (proj1 HW). by rewrite L1. }
    split; [done|]. split; [by rewrite L3, H3, app_assoc|].
    split; [by eapply grows_trans|].
    intros f P R rest [| | | | |e l0] Hk Hsim Hs; try done. simpl in Hk.
    rewrite <- app_assoc in Hs.
    destruct (Hread1 f P R (ts2 ++ rest) 0 I Hsim Hs)
      as (f1 & R1 & n & G1 & G2 & G3 & <- & G5 & G6).
    destruct (Lread f1 P R1 rest e Hk G5 G2)
      as (f2 & R2 & l' & M1 & M2 & M3 & M4 & M5 & M6).
    exists f2, R2, (VVec e l').
    split.
    { cbn [Archive.xfer_value].
      assert (Hsz : xfer_size (Z.of_nat (length l0)) R = Ok (Z.of_nat (length l), R1)).
      { unfold xfer_size in *. by rewrite (s_in _ _ _ _ _ Hsim) in *. }
      rewrite Hsz. cbn [mbind result_bind bind].
      rewrite (s_in _ _ _ _ _ Hsim), Nat2Z.id. by rewrite M1. }
    split; [done|]. split; [by etrans|].
    split; [by apply value_rel_vec|].
    split; [done|by eapply frame_trans].
Qed.

(** The members of the object [b] from index [i] on, written from [b]
    and read into its image [b']. *)
Lemma members_ok vs : forall i U W b ob,
  writer_of m W -> covers m U W -> (size U < fuel)%nat ->
  objs m !! b = Some ob -> drop i (fields ob) = vs ->
  Forall (fun v => wf_value v = true) vs ->
  exists W' ts,
    xfer_members (archive_raw fuel) b (seq i (length vs)) W = Ok W' /\
    writer_of m W' /\ stream W' = stream W ++ ts /\ grows W W' /\
    forall f P R rest b' D fs',
      sim m f P W R -> stream R = ts ++ rest ->
      f !! b = Some b' -> b ∈ P ->
      objs (mem R) !! b' = Some (mkobj D fs') ->
      same_shape vs (drop i fs') = true ->
      exists f' R' ws',
        xfer_members (archive_raw fuel) b' (seq i (length vs)) R = Ok R' /\
        stream R' = rest /\ f ⊆ f' /\ sim m f' P W' R' /\
        frame_except (Some b') R R' /\
        objs (mem R') !! b' = Some (mkobj D (take i fs' ++ ws')) /\
        Forall2 (value_rel f') vs ws'.
Proof.
  induction vs as [|v vs IH]; intros i U W b ob HW Hcov Hfuel Hb Hdrop Hwfs.
  - exists W, []. split; [done|]. split; [done|].
    split; [by rewrite app_nil_r|]. split; [apply grows_refl|].
    intros f P R rest b' D fs' Hsim Hs Hfb HP Hob Hshape.
    exists f, R, []. split; [done|]. split; [done|]. split; [done|].
    split; [done|]. split; [apply frame_refl|]. split; [|constructor].
    simpl in Hshape. destruct (drop i fs') eqn:E; [|done].
    rewrite Hob, <- E, take_drop. done.
  - apply Forall_cons in Hwfs as [Hwfv Hwfs].
    destruct (drop_cons_inv _ _ _ _ Hdrop) as [Hvi Hdrop'].
    destruct (value_ok v U W HW Hcov Hfuel Hwfv)
      as (W1 & ts1 & HW1 & Hw1 & Hs1 & Hg1 & Hread1).
    destruct (IH (S i) U W1 b ob Hw1 (covers_grows _ _ _ _ Hg1 Hcov) Hfuel Hb Hdrop' Hwfs)
      as (W2 & ts2 & HW2 & Hw2 & Hs2 & Hg2 & Hread2).
    exists W2, (ts1 ++ ts2).
    split.
    { cbn [length seq Archive.xfer_members]. unfold Archive.xfer_member.
      destruct HW as [Hout Hmem]. unfold get_field. rewrite Hmem, Hb, Hvi.
      cbn [mbind result_bind bind]. unfold Archive.archive_value in HW1.
      rewrite HW1. cbn [mbind result_bind bind].
      destruct Hw1 as [-> _]. exact HW2. }
    split; [done|]. split; [by rewrite Hs2, Hs1, app_assoc|].
    split; [by eapply grows_trans|].
    intros f P R rest b' D fs' Hsim Hs Hfb HP Hob Hshape.
    destruct (drop i fs') as [|w ws0] eqn:Edrop; [done|].
    simpl in Hshape. apply andb_prop in Hshape as [Hkind Hshape].
    destruct (drop_cons_inv _ _ _ _ Edrop) as [Hwi Edrop'].
    rewrite <- app_assoc in Hs.
    destruct (Hread1 f P R (ts2 ++ rest) w Hkind Hsim Hs)
      as (f1 & R1 & v' & G1 & G2 & G3 & G4 & G5 & G6).
    pose proof (s_range _ _ _ _ _ Hsim _ _ Hfb) as Hlt.
    assert (Hob1 : objs (mem R1) !! b' = Some (mkobj D fs')).
    { destruct G6 as [_ G6]. by rewrite G6. }
    set (R1' := set_mem (set_field b' i v' (mem R1)) R1).
    assert (Hob1' : objs (mem R1') !! b' = Some (mkobj D (<[i := v']> fs'))).
    { unfold R1', set_field. rewrite Hob1. simpl. by rewrite lookup_insert_eq. }
    assert (Hfb1 : f1 !! b = Some b') by (by eapply lookup_weaken).
    assert (Hsim1 : sim m f1 P W1 R1') by (by eapply sim_set_field).
    destruct (Hread2 f1 P R1' rest b' D (<[i := v']> fs') Hsim1 G2 Hfb1 HP Hob1')
      as (f2 & R2 & ws' & K1 & K2 & K3 & K4 & K5 & K6 & K7).
    { rewrite drop_insert_lt by lia. by rewrite Edrop'. }
    exists f2, R2, (v' :: ws').
    split.
    { cbn [length seq Archive.xfer_members]. unfold Archive.xfer_member.
      unfold get_field. rewrite Hob. cbn [fields]. rewrite Hwi.
      cbn [mbind result_bind bind]. unfold Archive.archive_value in G1.
      rewrite G1. cbn [mbind result_bind bind].
      rewrite (s_in _ _ _ _ _ G5). exact K1. }
    split; [done|]. split; [by etrans|]. split; [done|].
    split.
    { eapply frame_trans; [apply frame_weaken, G6|].
      eapply frame_trans; [|exact K5].
      unfold R1', set_field. rewrite Hob1. split; [simpl; lia|].
      intros b0 Hb0 Hne. simpl. rewrite lookup_insert_ne; [done|]. congruence. }
    split.
    { rewrite K6. f_equal. f_equal.
      assert (i < length fs')%nat by (by eapply lookup_lt_Some).
      rewrite (take_S_r _ _ v') by (by apply list_lookup_insert_eq).
      rewrite take_insert_ge by lia. by rewrite <- app_assoc. }
    constructor; [by eapply value_rel_mono|done].
Qed.

(** The step of the induction: a raw reference with one more level of
    nesting allowed. *)
Lemma raw_step U W T p :
  writer_of m W -> covers m U W -> (size U < S fuel)%nat -> wf_ptr T p = true ->
  contract m ptr_rel (archive_raw (S fuel) T p) (archive_raw (S fuel) T)
           (fun _ => True) p W.
Proof.
  intros HW Hcov Hfuel Hwfp. cbn [Archive.archive_raw].
  destruct p as [[b o]|].
  2:{ exists (emit (TokInt (-2)) W), [TokInt (-2)].
      split; [apply xfer_raw_null_out, HW|]. do 2 (split; [done|]).
      split; [by intros key|].
      intros f P R rest dst _ Hsim Hs. exists f, (set_stream rest R), None.
      split; [by apply xfer_raw_null_in; [apply Hsim|]|].
      do 3 (split; [done|]). split; [by apply sim_emit|apply frame_stream]. }
  destruct (wf_ptr_inv _ _ _ Hwfp) as (ob & fs & Hb & Hfs & Hcase).
  pose proof (typeid_at_writer W b o ob HW Hb) as Hty.
  pose proof (wf_normalized _ _ _ _ Hwfp Hb) as Hnorm.
  destruct (wf_object_inv _ _ Hb) as (Hwfs & fs0 & Hfs0 & Hshape).
  assert (fs0 = fs) as -> by congruence.
  destruct HW as [Hout Hmem].
  set (D := dyn_type ob) in *.
  set (flag := negb (bool_decide (Some (b, 0%nat) = Some (b, o)))).
  destruct (ptr2nr W !! Some (b, 0%nat)) as [nr|] eqn:Hlook.
  - (* a back-reference *)
    eexists _, (TokInt nr :: after_raw_id flag D).
    split; [by apply (xfer_raw_hit_out _ _ _ _ _ _ _ _ Hout Hty Hnorm)|].
    do 2 (split; [done|]). split; [by intros key|].
    intros f P R rest dst _ Hsim Hs.
    destruct (s_raw _ _ _ _ _ Hsim _ _ Hlook) as (b0 & b' & Heq & Hf & Hn & Hl).
    injection Heq as <-.
    exists f, (set_stream rest R), (Some (b', o)).
    split.
    { eapply xfer_raw_hit_in; [apply Hsim|exact Hn|exact Hs|exact Hl|].
      fold flag. destruct flag eqn:Hflag.
      - destruct (flag_true _ _ _ _ Hwfp Hb Hflag) as (info & Hget & Hup & _).
        by exists info.
      - by rewrite (flag_false _ _ Hflag). }
    do 2 (split; [done|]). split; [done|].
    split; [by apply sim_streams|apply frame_stream].
  - (* the referent is new: it is entered in the table, then archived *)
    assert (HbU : b ∈ U).
    { destruct (decide (b ∈ U)) as [|HnU]; [done|].
      destruct (Hcov b) as [n Hn]; [by eexists|done|congruence]. }
    assert (HsizeU : (size (U ∖ {[b]}) < fuel)%nat).
    { rewrite size_difference by set_solver. rewrite size_singleton.
      assert (size U ≠ 0%nat); [|lia].
      intros H0. apply size_empty_inv in H0. set_solver. }
    set (W1 := set_stream (stream W ++ new_raw_sentinel T D)
                 (register_ptr (Some (b, 0%nat)) W)).
    assert (Hw1 : writer_of m W1) by done.
    assert (Hcov1 : covers m (U ∖ {[b]}) W1).
    { intros b0 Hb0 HnU. simpl. destruct (decide (b0 = b)) as [->|Hne].
      - rewrite lookup_insert_eq. by eexists.
      - rewrite lookup_insert_ne by congruence. apply Hcov; [done|clear -HnU Hne; set_solver]. }
    destruct (members_ok (fields ob) 0 (U ∖ {[b]}) W1 b ob Hw1 Hcov1 HsizeU Hb eq_refl Hwfs)
      as (W2 & ts2 & HW2 & Hw2 & Hs2 & Hg2 & Hread2).
    exists W2, (new_raw_sentinel T D ++ ts2).
    split.
    { rewrite (xfer_raw_miss_out _ _ _ _ _ _ _ _ Hout Hty Hnorm); [|done|].
      - fold D W1. unfold Archive.DoArchive. cbn [fst]. simpl mem. rewrite Hmem, Hb.
        by rewrite HW2.
      - intros ->. by eexists. }
    split; [done|].
    split; [rewrite Hs2; unfold W1; simpl; by rewrite <- app_assoc|].
    split.
    { intros key Hkey. apply Hg2. simpl.
      destruct (decide (key = Some (b, 0%nat))) as [->|Hne].
      - rewrite lookup_insert_eq. by eexists.
      - by rewrite lookup_insert_ne. }
    intros f P R rest dst _ Hsim Hs.
    rewrite <- app_assoc in Hs.
    set (b' := next_block (mem R)).
    set (R1 := push_ptr (Some (b', 0%nat))
                 (set_mem (mkmem (<[b' := mkobj D fs]> (objs (mem R))) (S b'))
                    (set_stream (ts2 ++ rest) R))).
    destruct (sim_register_ptr m f P W R b b' (mkobj D fs) Hsim Hlook eq_refl)
      as [Hfb Hsim1].
    assert (Hsim1' : sim m (<[b := b']> f) (P ∪ {[b]}) W1 R1)
      by exact (sim_streams _ _ _ _ _ _ _ Hsim1).
    destruct (Hread2 (<[b := b']> f) (P ∪ {[b]}) R1 rest b' D fs Hsim1')
      as (f2 & R2 & ws' & K1 & K2 & K3 & K4 & K5 & K6 & K7);
      [done|apply lookup_insert_eq|apply elem_of_union_r, elem_of_singleton_2; reflexivity|apply lookup_insert_eq|done|].
    assert (Hbody : forall o', DoArchive (archive_raw fuel) (b', o') R1 = Ok R2).
    { intros o'. unfold Archive.DoArchive. cbn [fst]. simpl mem. simpl objs.
      rewrite lookup_insert_eq. cbn [fields].
      by rewrite <- (same_shape_length _ _ Hshape). }
    assert (Hf2b : f2 !! b = Some b').
    { eapply lookup_weaken; [apply lookup_insert_eq|done]. }
    exists f2, R2, (Some (b', o)).
    split.
    { destruct Hcase as [[HTD ->]|(Hne & Hr & Hl)].
      - unfold new_raw_sentinel in Hs. rewrite HTD, String.eqb_refl in Hs.
        rewrite (xfer_raw_new_in _ _ _ _ _ _ (s_in _ _ _ _ _ Hsim) _ fs _ Hs)
          by (by rewrite HTD).
        cbn zeta. unfold alloc. cbn [snd]. fold b'. rewrite HTD. fold R1.
        by rewrite Hbody.
      - unfold new_raw_sentinel in Hs.
        rewrite (string_eqb_ne D T) in Hs by done.
        destruct (Hregistry _ Hr) as (info & Hget & Hcasts).
        destruct (Hcasts T o Hl) as (Hdown & _ & Hcreate).
        specialize (Hcreate (mem R)). unfold constructIfPossible in Hcreate.
        fold D in Hfs. rewrite Hfs in Hcreate. unfold alloc in Hcreate.
        cbn [fst] in Hcreate.
        rewrite (xfer_raw_poly_in _ _ _ _ _ _ (s_in _ _ _ _ _ Hsim)
                   D _ info _ _ _ _ Hs Hget Hcreate (Hdown b')).
        fold b' R1. by rewrite Hbody. }
    split; [done|].
    split; [etrans; [by apply insert_subseteq|done]|].
    split; [done|].
    split.
    { eapply sim_complete; [exact K4|exact Hf2b|exact Hb|exact K6|].
      split; [done|]. by rewrite take_0, app_nil_l. }
    destruct K5 as [Hn5 Hf5]. split.
    { simpl in Hn5. fold b' in Hn5. fold b'. lia. }
    intros b0 Hb0 _. fold b' in Hb0.
    rewrite Hf5; [|simpl; lia|intros [= <-]; lia].
    simpl. rewrite lookup_insert_ne by lia. done.
Qed.

End step.

(** Every level of nesting. *)
Lemma raw_ok fuel : forall U W T p,
  writer_of m W -> covers m U W -> (size U < fuel)%nat -> wf_ptr T p = true ->
  contract m ptr_rel (archive_raw fuel T p) (archive_raw fuel T) (fun _ => True) p W.
Proof.
  induction fuel as [|fuel IH]; intros U W T p HW Hcov Hfuel Hwfp; [lia|].
  by eapply raw_step.
Qed.

(** A value of a well-formed memory is saved, with a budget of one
    more than the number of objects, and loaded back into an empty
    memory: both succeed, the stream is consumed to its end, and the
    reader holds an image of everything the value leads to. *)
Lemma save_load v :
  wf_value v = true ->
  let fuel := S (size (dom (objs m))) in
  exists s,
    Archive.save default_fields IsRegistered GetArchiveRegister fuel m v = Ok s /\
    forall dst, same_kind v dst = true ->
      exists f v' a,
        Archive.load default_fields IsRegistered GetArchiveRegister fuel dst s
          = Ok (v', a) /\
        stream a = [] /\ value_rel f v v' /\ isomorphic f m (mem a).
Proof.
  intros Hwfv fuel.
  assert (HW0 : writer_of m (create true [] m)) by done.
  assert (Hcov0 : covers m (dom (objs m)) (create true [] m)).
  { intros b Hb Hn. exfalso. apply Hn. by apply elem_of_dom. }
  destruct (value_ok fuel (raw_ok fuel) v (dom (objs m)) (create true [] m) HW0 Hcov0)
    as (W' & ts & HW & Hw & Hs & Hg & Hread); [unfold fuel; lia|done|].
  simpl in Hs.
  exists ts. split.
  { unfold Archive.save. rewrite HW. simpl. by rewrite Hs. }
  intros dst Hkind.
  assert (Hsim0 : sim m ∅ ∅ (create true [] m) (create false ts (mkmem ∅ 0))).
  { constructor; simpl; try done.
    intros b [x Hx]. by rewrite lookup_empty in Hx. }
  destruct (Hread ∅ ∅ (create false ts (mkmem ∅ 0)) [] dst Hkind Hsim0)
    as (f & R' & v' & G1 & G2 & G3 & G4 & G5 & G6); [by rewrite app_nil_r|].
  exists f, v', R'. split; [done|]. split; [done|]. split; [done|].
  split; [apply G5|].
  intros b b' Hb. apply (s_done _ _ _ _ _ G5 b b' Hb). set_solver.
Qed.

End roundtrip.

(** ** What an isomorphism preserves *)

Section iso.
Variables (f : gmap nat nat) (m m' : memory).
Hypothesis Hiso : isomorphic f m m'.













End iso.

End GraphFacts.

(** * Round trips, cycles and missing registrations *)

Module ArchiveFacts.
Import Archive Graph ProtocolFacts GraphFacts.

Lemma bind_inv {A B : Type} (r : result A) (k : A -> result B) (b : B) :
  (r ≫= k) = Ok b -> exists a, r = Ok a /\ k a = Ok b.
Proof. destruct r as [a|e]; [|done]. intros H. by exists a. Qed.

(** One primitive write of an output archive, in a hypothesis. *)
Ltac out_in Hout H :=
  match type of H with
  | context [put_int ?i ?a ≫= _] => rewrite (bind_ok _ _ _ (put_int_out i a Hout)) in H
  | context [put_bool ?i ?a ≫= _] => rewrite (bind_ok _ _ _ (put_bool_out i a Hout)) in H
  | context [put_string ?i ?a ≫= _] =>
      rewrite (bind_ok _ _ _ (put_string_out i a Hout)) in H
  end.

(** ** An output archive only appends to its stream *)

Lemma appends_refl a : Output a = true -> appends a a.
Proof. intros H. split; [done|]. exists []. by rewrite app_nil_r. Qed.

Lemma appends_trans a1 a2 a3 : appends a1 a2 -> appends a2 a3 -> appends a1 a3.
Proof.
  intros [_ [ts1 H1]] [Ho [ts2 H2]]. split; [done|].
  exists (ts1 ++ ts2). by rewrite H2, H1, app_assoc.
Qed.

Lemma appends_emit a k : Output a = true -> appends a (emit k a).
Proof. intros H. split; [done|]. by exists [k]. Qed.

Lemma appends_register_ptr a a' reg :
  appends (register_ptr reg a) a' -> appends a a'.
Proof. done. Qed.

Lemma appends_register_shared a a' reg :
  appends a a' -> appends a (register_shared reg a').
Proof. done. Qed.

Lemma xfer_int_appends i a j a' :
  Output a = true -> xfer_int i a = Ok (j, a') -> appends a a'.
Proof.
  intros Ho H. rewrite xfer_int_out in H by done. injection H as _ <-.
  by apply appends_emit.
Qed.

Lemma xfer_size_appends i a j a' :
  Output a = true -> xfer_size i a = Ok (j, a') -> appends a a'.
Proof.
  intros Ho H. rewrite xfer_size_out in H by done. injection H as _ <-.
  by apply appends_emit.
Qed.

Lemma xfer_bool_appends i a j a' :
  Output a = true -> xfer_bool i a = Ok (j, a') -> appends a a'.
Proof.
  intros Ho H. rewrite xfer_bool_out in H by done. injection H as _ <-.
  by apply appends_emit.
Qed.

Lemma xfer_string_appends i a j a' :
  Output a = true -> xfer_string i a = Ok (j, a') -> appends a a'.
Proof.
  intros Ho H. rewrite xfer_string_out in H by done. injection H as _ <-.
  by apply appends_emit.
Qed.

Lemma put_int_appends i a a' :
  Output a = true -> put_int i a = Ok a' -> appends a a'.
Proof.
  intros Ho H. rewrite put_int_out in H by done. injection H as <-.
  by apply appends_emit.
Qed.

Lemma put_bool_appends i a a' :
  Output a = true -> put_bool i a = Ok a' -> appends a a'.
Proof.
  intros Ho H. rewrite put_bool_out in H by done. injection H as <-.
  by apply appends_emit.
Qed.

Lemma put_string_appends i a a' :
  Output a = true -> put_string i a = Ok a' -> appends a a'.
Proof.
  intros Ho H. rewrite put_string_out in H by done. injection H as <-.
  by apply appends_emit.
Qed.

Section appends.
Variable default_fields : type_info -> option (list value).
Variable IsRegistered : type_info -> bool.
Variable GetArchiveRegister : type_info -> result ClassArchiveInfo.

Local Abbreviation xfer_raw :=
  (Archive.xfer_raw default_fields IsRegistered GetArchiveRegister).
Local Abbreviation xfer_shared := (Archive.xfer_shared IsRegistered GetArchiveRegister).
Local Abbreviation xfer_value := (Archive.xfer_value IsRegistered GetArchiveRegister).
Local Abbreviation xfer_member := (Archive.xfer_member IsRegistered GetArchiveRegister).
Local Abbreviation xfer_members := (Archive.xfer_members IsRegistered GetArchiveRegister).
Local Abbreviation DoArchive := (Archive.DoArchive IsRegistered GetArchiveRegister).
Local Abbreviation archive_raw :=
  (Archive.archive_raw default_fields IsRegistered GetArchiveRegister).

Lemma xfer_raw_appends body :
  (forall pa a a', Output a = true -> body pa a = Ok a' -> appends a a') ->
  forall T p a q a',
    Output a = true -> xfer_raw body T p a = Ok (q, a') -> appends a a'.
Proof.
  intros Hbody T p a q a' Ho H. unfold Archive.xfer_raw in H. rewrite Ho in H.
  destruct p as [pa|].
  2:{ apply bind_inv in H as (a1 & H1 & H). injection H as _ <-.
      by eapply put_int_appends. }
  apply bind_inv in H as (D & _ & H).
  apply bind_inv in H as (reg & _ & H).
  destruct (ptr2nr a !! reg) as [nr|].
  - apply bind_inv in H as ([j a1] & H1 & H).
    pose proof (xfer_int_appends _ _ _ _ Ho H1) as A1.
    apply bind_inv in H as (a2 & H2 & H).
    pose proof (put_bool_appends _ _ _ (proj1 A1) H2) as A2.
    apply bind_inv in H as (a3 & H3 & H).
    pose proof (put_string_appends _ _ _ (proj1 A2) H3) as A3.
    injection H as _ <-. eauto using appends_trans.
  - apply appends_register_ptr with reg.
    assert (Ho1 : Output (register_ptr reg a) = true) by done.
    destruct (String.eqb D T).
    + destruct (is_constructible default_fields T); [|done].
      apply bind_inv in H as (a2 & H2 & H).
      pose proof (put_int_appends _ _ _ Ho1 H2) as A2.
      apply bind_inv in H as (a3 & H3 & H).
      pose proof (Hbody _ _ _ (proj1 A2) H3) as A3.
      injection H as _ <-. eauto using appends_trans.
    + destruct (negb (IsRegistered D)); [done|].
      apply bind_inv in H as (a2 & H2 & H).
      pose proof (put_int_appends _ _ _ Ho1 H2) as A2.
      apply bind_inv in H as (a3 & H3 & H).
      pose proof (put_string_appends _ _ _ (proj1 A2) H3) as A3.
      apply bind_inv in H as (a4 & H4 & H).
      pose proof (Hbody _ _ _ (proj1 A3) H4) as A4.
      injection H as _ <-. eauto using appends_trans.
Qed.

Lemma xfer_shared_appends raw :
  (forall T p a q a', Output a = true -> raw T p a = Ok (q, a') -> appends a a') ->
  forall T p a q a',
    Output a = true -> xfer_shared raw T p a = Ok (q, a') -> appends a a'.
Proof.
  intros Hraw T p a q a' Ho H. unfold Archive.xfer_shared in H. rewrite Ho in H.
  destruct p as [pa|].
  2:{ apply bind_inv in H as (a1 & H1 & H). injection H as _ <-.
      by eapply put_int_appends. }
  apply bind_inv in H as (D & _ & H).
  apply bind_inv in H as ([reg flag] & _ & H).
  destruct (shared_ptr2nr a !! reg) as [nr|].
  - apply bind_inv in H as (a1 & H1 & H).
    pose proof (put_int_appends _ _ _ Ho H1) as A1.
    apply bind_inv in H as (a2 & H2 & H).
    pose proof (put_bool_appends _ _ _ (proj1 A1) H2) as A2.
    apply bind_inv in H as (a3 & H3 & H). injection H as _ <-.
    destruct flag.
    + pose proof (put_string_appends _ _ _ (proj1 A2) H3). eauto using appends_trans.
    + injection H3 as <-. eauto using appends_trans.
  - apply bind_inv in H as (a1 & H1 & H).
    pose proof (put_int_appends _ _ _ Ho H1) as A1.
    apply bind_inv in H as ([j a2] & H2 & H).
    pose proof (xfer_bool_appends _ _ _ _ (proj1 A1) H2) as A2.
    apply bind_inv in H as ([q3 a3] & H3 & H).
    pose proof (Hraw _ _ _ _ _ (proj1 A2) H3) as A3.
    apply bind_inv in H as (a4 & H4 & H). injection H as _ <-.
    apply appends_register_shared.
    destruct flag.
    + pose proof (put_string_appends _ _ _ (proj1 A3) H4). eauto using appends_trans.
    + injection H4 as <-. eauto using appends_trans.
Qed.

Lemma xfer_value_appends raw :
  (forall T p a q a', Output a = true -> raw T p a = Ok (q, a') -> appends a a') ->
  forall v a w a',
    Output a = true -> xfer_value raw v a = Ok (w, a') -> appends a a'.
Proof.
  intros Hraw.
  induction v as [i|i|i|T p|T p|d l _ IHl] using value_ind; intros a w a' Ho H;
    cbn [Archive.xfer_value] in H;
    apply bind_inv in H as ([j a1] & H1 & H).
  - injection H as _ <-. by eapply xfer_int_appends.
  - injection H as _ <-. by eapply xfer_bool_appends.
  - injection H as _ <-. by eapply xfer_string_appends.
  - injection H as _ <-. by eapply xfer_shared_appends.
  - injection H as _ <-. by eapply Hraw.
  - pose proof (xfer_size_appends _ _ _ _ Ho H1) as A1.
    rewrite Ho in H. apply bind_inv in H as (a2 & H2 & H). injection H as _ <-.
    eapply appends_trans; [exact A1|].
    destruct A1 as [Ho1 _]. clear H1. revert a1 Ho1 H2.
    induction l as [|x r IHr]; intros a1 Ho1 H2; simpl in H2.
    + injection H2 as <-. by apply appends_refl.
    + apply Forall_cons in IHl as [Hx Hr].
      apply bind_inv in H2 as ([y a3] & H3 & H2).
      pose proof (Hx _ _ _ Ho1 H3) as A3.
      eapply appends_trans; [exact A3|]. apply IHr; [done|apply A3|done].
Qed.

Lemma xfer_members_appends raw b :
  (forall T p a q a', Output a = true -> raw T p a = Ok (q, a') -> appends a a') ->
  forall idx a a',
    Output a = true -> xfer_members raw b idx a = Ok a' -> appends a a'.
Proof.
  intros Hraw. induction idx as [|i idx IH]; intros a a' Ho H; simpl in H.
  - injection H as <-. by apply appends_refl.
  - apply bind_inv in H as (a1 & H1 & H).
    unfold Archive.xfer_member in H1.
    apply bind_inv in H1 as (v & _ & H1).
    apply bind_inv in H1 as ([w a2] & H2 & H1).
    pose proof (xfer_value_appends raw Hraw _ _ _ _ Ho H2) as A2.
    rewrite (proj1 A2) in H1. injection H1 as <-.
    eapply appends_trans; [exact A2|]. apply IH; [apply A2|done].
Qed.

Lemma archive_raw_appends fuel : forall T p a q a',
  Output a = true -> archive_raw fuel T p a = Ok (q, a') -> appends a a'.
Proof.
  induction fuel as [|fuel IH]; intros T p a q a' Ho H; [done|].
  cbn [Archive.archive_raw] in H.
  eapply xfer_raw_appends; [|exact Ho|exact H].
  intros pa a0 a0' Ho0 Hb. unfold Archive.DoArchive in Hb.
  destruct (objs (mem a0) !! pa.1); [|done].
  by eapply xfer_members_appends.
Qed.

End appends.

(** ** The claims on whole graphs *)

Section claims.
Variable default_fields : type_info -> option (list value).
Variable IsRegistered : type_info -> bool.
Variable GetArchiveRegister : type_info -> result ClassArchiveInfo.

Local Abbreviation xfer_raw :=
  (Archive.xfer_raw default_fields IsRegistered GetArchiveRegister).
Local Abbreviation xfer_shared := (Archive.xfer_shared IsRegistered GetArchiveRegister).
Local Abbreviation normalized := (Graph.normalized IsRegistered GetArchiveRegister).
Local Abbreviation save := (Archive.save default_fields IsRegistered GetArchiveRegister).
Local Abbreviation load := (Archive.load default_fields IsRegistered GetArchiveRegister).



(** C6, as the code has it. [GetArchiveRegister] is taken to fail with
    UnregisteredPolymorphic on a name that is not registered.
    Writing a reference raises the error exactly when the dynamic type
    differs from the static type and is not registered (any other
    occurrence comes from the referent's own members). Reading raises it
    when the name it looks up is not registered: the name after the
    sentinel [-3], the name after a set flag of a shared reference, and
    the name of a raw back-reference whose flag is set; the name of a
    raw back-reference whose flag is clear is read and not looked up.
    With exact types and default constructible classes, saving and
    loading succeed with nothing registered. A reference through a base
    saved where the class was registered fails to load, with the same
    error, where it is not. *)
Theorem unregistered_polymorphic :
  (forall nm, IsRegistered nm = false ->
              GetArchiveRegister nm = Err UnregisteredPolymorphic) ->
  (forall T pa D a,
     Output a = true -> typeid_at (mem a) pa = Ok D ->
     T <> D -> IsRegistered D = false ->
     (forall body, xfer_raw body T (Some pa) a = Err UnregisteredPolymorphic) /\
     (forall raw, xfer_shared raw T (Some pa) a = Err UnregisteredPolymorphic)) /\
  (forall T pa D reg a,
     Output a = true -> typeid_at (mem a) pa = Ok D ->
     normalized T D (Some pa) reg ->
     (forall body, xfer_raw body T (Some pa) a = Err UnregisteredPolymorphic ->
                   exists a2, body pa a2 = Err UnregisteredPolymorphic) /\
     (forall raw, xfer_shared raw T (Some pa) a = Err UnregisteredPolymorphic ->
                  exists a2, raw T (Some pa) a2 = Err UnregisteredPolymorphic)) /\
  (forall T dst r nm rest,
     Output r = false -> IsRegistered nm = false ->
     (stream r = TokInt (-3) :: TokString nm :: rest ->
      forall body, xfer_raw body T dst r = Err UnregisteredPolymorphic) /\
     (forall nr, 0 <= nr ->
        stream r = TokInt nr :: after_raw_id true nm ++ rest ->
        forall body, xfer_raw body T dst r = Err UnregisteredPolymorphic) /\
     (forall nr stored, 0 <= nr ->
        nr2ptr r !! Z.to_nat nr = Some stored ->
        stream r = TokInt nr :: after_raw_id false nm ++ rest ->
        forall body, xfer_raw body T dst r = Ok (stored, set_stream rest r)) /\
     (forall nr other, 0 <= nr ->
        nr2shared_ptr r !! Z.to_nat nr = Some other ->
        stream r = TokInt nr :: after_shared_id true nm ++ rest ->
        forall raw, xfer_shared raw T dst r = Err UnregisteredPolymorphic) /\
     (forall s raw p' r3,
        stream r = TokInt (-1) :: TokBool true :: s ->
        raw T None (set_stream s r) = Ok (p', r3) ->
        Output r3 = false -> stream r3 = TokString nm :: rest ->
        xfer_shared raw T dst r = Err UnregisteredPolymorphic)) /\
  (forall layout m v,
     wf_mem default_fields (fun _ => false) layout m ->
     wf_value default_fields (fun _ => false) layout m v = true ->
     exists fuel s,
       Archive.save default_fields (fun _ => false)
         (fun _ => Err UnregisteredPolymorphic) fuel m v = Ok s /\
       forall dst, same_kind v dst = true ->
         exists v' a,
           Archive.load default_fields (fun _ => false)
             (fun _ => Err UnregisteredPolymorphic) fuel dst s = Ok (v', a)) /\
  (forall IsRegistered_w GetArchiveRegister_w m T pa D fuel fuel' s dst,
     typeid_at m pa = Ok D -> T <> D -> IsRegistered D = false ->
     Archive.save default_fields IsRegistered_w GetArchiveRegister_w
       (S fuel) m (VRaw T (Some pa)) = Ok s ->
     load (S fuel') (VRaw T dst) s = Err UnregisteredPolymorphic).
Proof.
  intros Habsent. split; [|split; [|split; [|split]]].
  - (* a write of an unregistered dynamic type *)
    intros T pa D a Ho Hty Hne Hreg. split.
    + intros body. unfold Archive.xfer_raw. rewrite Ho, (bind_ok _ _ _ Hty).
      rewrite (string_eqb_ne T D Hne), Hreg. reflexivity.
    + intros raw. unfold Archive.xfer_shared. rewrite Ho, (bind_ok _ _ _ Hty).
      rewrite (string_eqb_ne T D Hne), Hreg. reflexivity.
  - (* no other write raises it *)
    intros T pa D reg a Ho Hty Hnorm. split.
    + intros body H. destruct (ptr2nr a !! reg) as [nr|] eqn:Hlook.
      * by rewrite (xfer_raw_hit_out _ _ _ _ _ _ _ _ Ho Hty Hnorm _ _ Hlook) in H.
      * unfold Archive.xfer_raw in H. rewrite Ho, (bind_ok _ _ _ Hty) in H.
        rewrite (bind_ok _ _ _ (normalized_raw _ _ _ _ _ _ Hnorm)), Hlook in H.
        destruct (String.eqb_spec D T) as [->|Hne].
        -- destruct (is_constructible default_fields T); [|done].
           out_in Ho H.
           destruct (body pa _) as [a3|e] eqn:Hb; [done|].
           eexists. rewrite Hb. simpl in H. congruence.
        -- destruct Hnorm as [[-> _]|(_ & Hreg & _)]; [done|].
           rewrite Hreg in H. simpl negb in H. cbv iota in H.
           do 2 out_in Ho H.
           destruct (body pa _) as [a3|e] eqn:Hb; [done|].
           eexists. rewrite Hb. simpl in H. congruence.
    + intros raw H. destruct (shared_ptr2nr a !! reg) as [nr|] eqn:Hlook.
      * by rewrite (xfer_shared_hit_out _ _ _ _ _ _ _ Ho Hty Hnorm _ _ Hlook) in H.
      * rewrite (xfer_shared_miss_out _ _ _ _ _ _ _ Ho Hty Hnorm _ Hlook) in H.
        destruct (raw T (Some pa) _) as [[q a3]|e] eqn:Hr.
        -- exfalso. simpl in H.
           destruct (negb (bool_decide (reg = Some pa))); simpl in H; [|done].
           unfold put_string, xfer_string in H.
           destruct (Output a3); [done|]. by destruct (stream a3) as [|[]].
        -- eexists. rewrite Hr. simpl in H. congruence.
  - (* reads *)
    intros T dst r nm rest Hin Hnm. pose proof (Habsent nm Hnm) as Hget.
    split; [|split; [|split; [|split]]].
    + intros Hs body. unfold Archive.xfer_raw. rewrite Hin.
      rewrite (bind_ok _ _ _ (xfer_int_in 0 _ _ r Hin Hs)).
      cbn [Z.eqb Pos.eqb]. in_step Hin. by rewrite Hget.
    + intros nr Hnr Hs body. unfold Archive.xfer_raw. rewrite Hin.
      rewrite (bind_ok _ _ _ (xfer_int_in 0 _ _ r Hin Hs)).
      destruct (Z.eqb_spec nr (-2)); [lia|].
      destruct (Z.eqb_spec nr (-1)); [lia|].
      destruct (Z.eqb_spec nr (-3)); [lia|].
      unfold after_raw_id. simpl app. do 2 in_step Hin. by rewrite Hget.
    + intros nr stored Hnr Hst Hs body.
      by eapply xfer_raw_hit_in.
    + intros nr other Hnr Hot Hs raw. unfold Archive.xfer_shared. rewrite Hin.
      rewrite (bind_ok _ _ _ (xfer_int_in 0 _ _ r Hin Hs)).
      destruct (Z.eqb_spec nr (-2)); [lia|].
      destruct (Z.eqb_spec nr (-1)); [lia|].
      change (nr2shared_ptr (set_stream ?s r)) with (nr2shared_ptr r).
      rewrite (bind_ok _ _ _ (vector_at_lookup _ _ _ Hnr Hot)).
      unfold after_shared_id. simpl app. do 2 in_step Hin. by rewrite Hget.
    + intros s raw p' r3 Hs Hr Hin3 Hs3.
      rewrite (xfer_shared_new_in _ _ _ _ _ Hin _ _ _ Hs), Hr.
      cbn [mbind result_bind bind].
      rewrite (bind_ok _ _ _ (xfer_string_in EmptyString nm rest r3 Hin3 Hs3)).
      by rewrite Hget.
  - (* exact types, nothing registered *)
    intros layout m v Hwf Hv.
    assert (Hsound : registry_sound default_fields (fun _ => false)
                       (fun _ => Err UnregisteredPolymorphic) layout) by (by intros D).
    destruct (save_load _ _ _ _ Hsound m Hwf v Hv) as (s & Hsave & Hload).
    eexists _, s. split; [exact Hsave|].
    intros dst Hk. destruct (Hload dst Hk) as (f & v' & a & H1 & _). by exists v', a.
  - (* saved with the registration, loaded without *)
    intros IsRegistered_w GetArchiveRegister_w m T pa D fuel fuel' s dst
      Hty Hne Hreg Hsave.
    assert (Hs : exists ts, s = TokInt (-3) :: TokString D :: ts).
    { unfold Archive.save, Archive.archive_value, Archive.xfer_value in Hsave.
      apply bind_inv in Hsave as ([w a] & Hsave & Hw). injection Hw as <-.
      apply bind_inv in Hsave as ([q a'] & Hsave & Hw). injection Hw as _ <-.
      cbn [Archive.archive_raw] in Hsave. unfold Archive.xfer_raw in Hsave.
      simpl Output in Hsave. cbv iota in Hsave. simpl mem in Hsave.
      rewrite (bind_ok _ _ _ Hty) in Hsave.
      apply bind_inv in Hsave as (reg & _ & Hsave).
      simpl ptr2nr in Hsave. rewrite lookup_empty in Hsave.
      rewrite (string_eqb_ne D T) in Hsave by done.
      destruct (negb (IsRegistered_w D)); [done|].
      do 2 out_in (eq_refl true) Hsave.
      apply bind_inv in Hsave as (a4 & Hbody & Hw). injection Hw as _ <-.
      unfold Archive.DoArchive in Hbody.
      destruct (objs _ !! _) as [ob|]; [|done].
      eapply xfer_members_appends in Hbody as [_ [ts Hts]]; [|by apply archive_raw_appends|done].
      exists ts. by rewrite Hts. }
    destruct Hs as [ts ->].
    unfold Archive.load, Archive.archive_value, Archive.xfer_value.
    cbn [Archive.archive_raw]. unfold Archive.xfer_raw. simpl Output. cbv iota.
    set (R0 := create false (TokInt (-3) :: TokString D :: ts) (mkmem ∅ 0)).
    assert (Hin : Output R0 = false) by done.
    in_step Hin. cbn [Z.eqb Pos.eqb]. in_step Hin.
    by rewrite (Habsent D Hreg).
Qed.

End claims.

(** ** The example program *)

Local Open Scope string_scope.






(** With nothing registered, a [Base1*] to a [Derived] cannot be
    written, and the stream of such a reference written elsewhere
    cannot be read. *)
Lemma unregistered_polymorphic_witness :
  (forall body,
     Archive.xfer_raw Example.default_fields Example.nothing_registered
       Example.empty_register body "Base1" (Some (0, 0)%nat)
       (create true [] Example.two_derived) = Err UnregisteredPolymorphic) /\
  Archive.load Example.default_fields Example.nothing_registered Example.empty_register
    2 (VRaw "Base1" None) Example.derived_stream = Err UnregisteredPolymorphic.
Proof.
  destruct (unregistered_polymorphic Example.default_fields Example.nothing_registered
              Example.empty_register (fun nm _ => eq_refl))
    as (Hwrite & _ & _ & _ & Hload).
  split.
  - intros body.
    apply (proj1 (Hwrite "Base1" (0, 0)%nat "Derived" (create true [] Example.two_derived)
                    eq_refl eq_refl ltac:(discriminate) eq_refl)).
  - apply (Hload Example.IsRegistered Example.GetArchiveRegister Example.two_derived
             "Base1" (0, 0)%nat "Derived" 1%nat 1%nat Example.derived_stream None);
      [reflexivity|discriminate|reflexivity|vm_compute; reflexivity].
Defined.

(** The claim fails twice. The stream of [Example.pair_of_node] holds
    the name ["Node"], which is not registered; the reader takes it off
    the stream, to the end, and reports nothing. And when the dynamic
    type differs from the static type and is not registered, it is the
    save that fails: there is no stream to load. *)
Lemma stored_name_read_without_lookup :
  Archive.save Example.default_fields Example.nothing_registered Example.empty_register
    3 Example.pair_of_node (VRaw "Pair" (Some (1, 0)%nat)) = Ok Example.pair_stream /\
  TokString "Node" ∈ Example.pair_stream /\
  Example.empty_register "Node" = Err UnregisteredPolymorphic /\
  (exists v a,
     Archive.load Example.default_fields Example.nothing_registered
       Example.empty_register 3 (VRaw "Pair" None) Example.pair_stream = Ok (v, a) /\
     stream a = []) /\
  Archive.save Example.default_fields Example.nothing_registered Example.empty_register
    3 Example.two_derived (VRaw "Base1" (Some (0, 0)%nat))
  = Err UnregisteredPolymorphic.
Proof.
  split; [vm_compute; reflexivity|].
  split; [unfold Example.pair_stream; set_solver|].
  split; [reflexivity|].
  split; [|vm_compute; reflexivity].
  eexists _, _. split; [vm_compute; reflexivity|reflexivity].
Qed.

End ArchiveFacts.
